(** * claude-doc-bot: the job orchestration server (api/src/server.ts)

    A shallow embedding of the Express/WebSocket server: the job table of
    [JobManager], its [updateJob]/[broadcast] pair, the asynchronous
    [runJob] (cut at its [await]s into atomic segments, several runners
    interleaving on one event loop) and the HTTP read handlers.

    JavaScript strings are represented by their UTF-8 bytes ([string]);
    numbers that the server only counts with are integers ([Z]); instants
    ([Date]) are milliseconds ([N]). *)

From stdpp Require Import gmap strings list sorting fin_maps pretty.
From Stdlib Require Import ZArith NArith Ascii.

Local Open Scope Z_scope.

(** ** Strings *)

Definition bytes (s : string) : list ascii := String.list_ascii_of_string s.
Definition of_bytes (l : list ascii) : string := String.string_of_list_ascii l.

(** The double quote character, as a string. *)
Definition dquote : string := String (ascii_of_nat 34) EmptyString.

(** [s.endsWith(suffix)] *)
Definition endsWith (s sfx : string) : bool :=
  bool_decide (bytes sfx `suffix_of` bytes s).

(** [s.startsWith(pfx)] *)
Definition startsWith (s pfx : string) : bool :=
  bool_decide (bytes pfx `prefix_of` bytes s).

(** The code points [String.prototype.trim] removes (WhiteSpace and
    LineTerminator of ECMAScript), as UTF-8 byte sequences. *)
Definition white_space : list (list nat) :=
  [ [9]; [10]; [11]; [12]; [13]; [32]
  ; [194; 160]                                     (* U+00A0 *)
  ; [225; 154; 128]                                (* U+1680 *)
  ; [226; 128; 128]; [226; 128; 129]; [226; 128; 130]; [226; 128; 131]
  ; [226; 128; 132]; [226; 128; 133]; [226; 128; 134]; [226; 128; 135]
  ; [226; 128; 136]; [226; 128; 137]; [226; 128; 138] (* U+2000..U+200A *)
  ; [226; 128; 168]; [226; 128; 169]                (* U+2028, U+2029 *)
  ; [226; 128; 175]                                (* U+202F *)
  ; [226; 129; 159]                                (* U+205F *)
  ; [227; 128; 128]                                (* U+3000 *)
  ; [239; 187; 191] ]%nat.                         (* U+FEFF *)

Fixpoint strip_prefix {A} `{EqDecision A} (p l : list A) : option (list A) :=
  match p, l with
  | [], _ => Some l
  | x :: p', y :: l' => if decide (x = y) then strip_prefix p' l' else None
  | _ :: _, [] => None
  end.

(** Drops one leading sequence of [seqs], the first that matches. *)
Fixpoint drop_one (seqs : list (list ascii)) (l : list ascii) : option (list ascii) :=
  match seqs with
  | [] => None
  | p :: seqs' =>
      match strip_prefix p l with
      | Some l' => Some l'
      | None => drop_one seqs' l
      end
  end.

Fixpoint drop_all (fuel : nat) (seqs : list (list ascii)) (l : list ascii) : list ascii :=
  match fuel with
  | O => l
  | S fuel' =>
      match drop_one seqs l with
      | Some l' => drop_all fuel' seqs l'
      | None => l
      end
  end.

Definition trimStart (l : list ascii) : list ascii :=
  drop_all (length l) (map (map ascii_of_nat) white_space) l.

Definition trimEnd (l : list ascii) : list ascii :=
  rev (drop_all (length l) (map (fun p => rev (map ascii_of_nat p)) white_space) (rev l)).

(** [s.trim()] *)
Definition trim (s : string) : string := of_bytes (trimEnd (trimStart (bytes s))).

(** [s.split('/')] *)
Fixpoint split_slash (cur : list ascii) (l : list ascii) : list string :=
  match l with
  | [] => [of_bytes (rev cur)]
  | c :: l' =>
      if decide (c = "/"%char) then of_bytes (rev cur) :: split_slash [] l'
      else split_slash (c :: cur) l'
  end.

Definition segments (s : string) : list string := split_slash [] (bytes s).

(** ** Unicode

    What the program does with a string by its characters: decoding the
    bytes of a file, comparing two names, checking a header value. *)

Module utf8.

(** The decoder between two bytes: nothing is pending, or a sequence has
    begun, [needed] more bytes are expected, the next one within
    [lower..upper], and [cp] holds the bits read so far. *)
Inductive State := Idle | Pending (needed : nat) (lower upper : N) (cp : N).

(** U+FFFD, which stands for what cannot be decoded. *)
Definition replacement : N := 65533.

(** A byte that starts a sequence. *)
Definition first (b : N) : list N * State :=
  if (b <=? 127)%N then ([b], Idle)
  else if ((194 <=? b) && (b <=? 223))%N then ([], Pending 1 128 191 (N.land b 31))
  else if ((224 <=? b) && (b <=? 239))%N then
    ([], Pending 2 (if (b =? 224)%N then 160 else 128)%N
                   (if (b =? 237)%N then 159 else 191)%N (N.land b 15))
  else if ((240 <=? b) && (b <=? 244))%N then
    ([], Pending 3 (if (b =? 240)%N then 144 else 128)%N
                   (if (b =? 244)%N then 143 else 191)%N (N.land b 7))
  else ([replacement], Idle).

(** The UTF-8 decoder that [buffer.toString('utf-8')] runs: a sequence
    that breaks off gives one U+FFFD, and the byte it broke off at is
    read again as the start of a sequence. *)
Fixpoint decode (st : State) (bs : list N) : list N :=
  match bs with
  | [] => match st with Idle => [] | Pending _ _ _ _ => [replacement] end
  | b :: bs' =>
      match st with
      | Idle => let '(out, st') := first b in out ++ decode st' bs'
      | Pending needed lower upper cp =>
          if ((lower <=? b) && (b <=? upper))%N then
            let cp := N.lor (N.shiftl cp 6) (N.land b 63) in
            match needed with
            | S (S n) => decode (Pending (S n) 128 191 cp) bs'
            | _ => cp :: decode Idle bs'
            end
          else let '(out, st') := first b in replacement :: out ++ decode st' bs'
      end
  end.

(** The bytes of one code point. *)
Definition encode (c : N) : list N :=
  if (c <? 128)%N then [c]
  else if (c <? 2048)%N then [N.lor 192 (N.shiftr c 6); N.lor 128 (N.land c 63)]
  else if (c <? 65536)%N then
    [N.lor 224 (N.shiftr c 12); N.lor 128 (N.land (N.shiftr c 6) 63);
     N.lor 128 (N.land c 63)]
  else
    [N.lor 240 (N.shiftr c 18); N.lor 128 (N.land (N.shiftr c 12) 63);
     N.lor 128 (N.land (N.shiftr c 6) 63); N.lor 128 (N.land c 63)].

(** The UTF-16 code units of one code point. *)
Definition utf16 (c : N) : list N :=
  if (c <? 65536)%N then [c]
  else [55296 + N.shiftr (c - 65536) 10; 56320 + N.land (c - 65536) 1023]%N.

End utf8.

(** The code points of a string. *)
Definition code_points (s : string) : list N :=
  utf8.decode utf8.Idle (map N_of_ascii (bytes s)).

(** The string of a list of code points. *)
Definition of_code_points (l : list N) : string :=
  of_bytes (map ascii_of_N (flat_map utf8.encode l)).

(** [buffer.toString('utf-8')], for a buffer with the bytes of [content]. *)
Definition toString_utf8 (content : string) : string :=
  of_code_points (code_points content).

(** The code units of a string, which is what JavaScript compares. *)
Definition code_units (s : string) : list N := flat_map utf8.utf16 (code_points s).

Fixpoint code_units_le (a b : list N) : bool :=
  match a, b with
  | [], _ => true
  | _ :: _, [] => false
  | x :: a', y :: b' =>
      if (x <? y)%N then true else if (y <? x)%N then false else code_units_le a' b'
  end.

(** [a] does not come after [b] in the order of [Array.prototype.sort()]
    without a comparator. *)
Definition sorts_before (a b : string) : Prop :=
  code_units_le (code_units a) (code_units b) = true.

Global Instance sorts_before_dec a b : Decision (sorts_before a b).
Proof. unfold sorts_before. apply _. Defined.

(** [s.split(c)] for a one-character separator. *)
Fixpoint split_on (c : ascii) (cur : list ascii) (l : list ascii) : list string :=
  match l with
  | [] => [of_bytes (rev cur)]
  | x :: l' =>
      if decide (x = c) then of_bytes (rev cur) :: split_on c [] l'
      else split_on c (x :: cur) l'
  end.

(** ** Paths (node's [path], POSIX flavour)

    An absolute, normalised path is the list of its segments; [[]] is the
    root. *)

Abbreviation Path := (list string).

Module path.

(** One step of node's [normalizeString]: empty and ["."] segments vanish,
    [".."] removes the last segment (and is dropped at the root). *)
Definition push_segment (stack : Path) (seg : string) : Path :=
  if decide (seg = "" ∨ seg = ".") then stack
  else if decide (seg = "..") then removelast stack
  else stack ++ [seg].

(** [path.join(base, f)] for an absolute, normalised [base]. *)
Definition join (base : Path) (f : string) : Path :=
  foldl push_segment base (segments f).

(** One argument of [path.resolve]: an empty argument is skipped, an
    absolute one restarts from the root. *)
Definition resolve_arg (cur : Path) (arg : string) : Path :=
  if decide (arg = "") then cur
  else foldl push_segment (if startsWith arg "/" then [] else cur) (segments arg).

(** [path.resolve(...args)] in a process whose working directory is [cwd]. *)
Definition resolve (cwd : Path) (args : list string) : Path :=
  foldl resolve_arg cwd args.

Definition to_string (p : Path) : string :=
  match p with
  | [] => "/"
  | _ => foldr (fun seg acc => "/" +:+ seg +:+ acc) "" p
  end.

(** A directory entry name as [readdir] reports them. *)
Definition plain_name (f : string) : Prop :=
  f ≠ "" ∧ f ≠ "." ∧ f ≠ ".." ∧ "/"%char ∉ bytes f.

Global Instance plain_name_dec f : Decision (plain_name f).
Proof. unfold plain_name. apply _. Defined.

End path.

(** ** The disk (what fs-extra sees) *)

Inductive Node := Dir | File (content : string).

Global Instance Node_eq_dec : EqDecision Node.
Proof. solve_decision. Defined.

Abbreviation Disk := (gmap (list string) Node).

(** What a rejected promise or a [throw] carries: an [Error] with its
    message, or any other value. *)
Inductive Thrown := ErrorObj (message : string) | NonError.

Global Instance Thrown_eq_dec : EqDecision Thrown.
Proof. solve_decision. Defined.

Definition enoent (syscall : string) (p : Path) : Thrown :=
  ErrorObj ("ENOENT: no such file or directory, " +:+ syscall +:+ " '" +:+ path.to_string p +:+ "'").
Definition enotdir (syscall : string) (p : Path) : Thrown :=
  ErrorObj ("ENOTDIR: not a directory, " +:+ syscall +:+ " '" +:+ path.to_string p +:+ "'").
Definition eisdir (syscall : string) : Thrown :=
  ErrorObj ("EISDIR: illegal operation on a directory, " +:+ syscall).

Module fs.

Definition kind (d : Disk) (p : Path) : option Node :=
  match p with
  | [] => Some Dir
  | _ => d !! p
  end.

(** [fs.pathExists(p)] *)
Definition pathExists (d : Disk) (p : Path) : bool :=
  match kind d p with Some _ => true | None => false end.

Definition child_of (p : Path) (k : Path) : option string :=
  match strip_prefix p k with
  | Some [n] => Some n
  | _ => None
  end.

(** The names right below [p], in the order in which [readdir] of
    graceful-fs (which fs-extra wraps) hands them over: it sorts what
    the system call returned. *)
Definition children (d : Disk) (p : Path) : list string :=
  merge_sort sorts_before (omap (fun kv => child_of p kv.1) (map_to_list d)).

(** [fs.readdir(p)] *)
Definition readdir (d : Disk) (p : Path) : Thrown + list string :=
  match kind d p with
  | Some Dir => inr (children d p)
  | Some (File _) => inl (enotdir "scandir" p)
  | None => inl (enoent "scandir" p)
  end.

(** [fs.readFile(p, 'utf-8')]: the bytes of the file, decoded. *)
Definition readFile (d : Disk) (p : Path) : Thrown + string :=
  match kind d p with
  | Some (File c) => inr (toString_utf8 c)
  | Some Dir => inl (eisdir "read")
  | None => inl (enoent "open" p)
  end.

(** [fs.ensureDir(p)]: creates [p] and its missing ancestors. *)
Fixpoint mkdirs (d : Disk) (done : Path) (todo : list string) : Thrown + Disk :=
  match todo with
  | [] => inr d
  | seg :: todo' =>
      let p := done ++ [seg] in
      match d !! p with
      | Some (File _) => inl (enotdir "mkdir" (done ++ todo))
      | Some Dir => mkdirs d p todo'
      | None => mkdirs (<[p := Dir]> d) p todo'
      end
  end.

Definition ensureDir (d : Disk) (p : Path) : Thrown + Disk := mkdirs d [] p.

(** The disk after an [fs.remove(p)] that resolved: [p] and everything
    below it is gone; nothing to do when [p] does not exist. Whether the
    promise resolves is not for the disk to tell (permissions, open
    handles): where it is awaited, its outcome comes with the event. *)
Definition remove (d : Disk) (p : Path) : Disk :=
  filter (fun kv => ¬ p `prefix_of` kv.1) d.

End fs.

(** ** Data model *)

Inductive Status := pending | running | completed | failed.

Global Instance Status_eq_dec : EqDecision Status.
Proof. solve_decision. Defined.

Definition Date := N.

(** Modelled from the spec: the outcome of one unit, whose type the worker
    package (@claude-doc-bot/worker) declares; the server reads only
    [success]. *)
Record UnitResult := {
  success : bool;
  artifactRef : option string;
  errorMessage : option string;
  timestamp : Date;
}.

Global Instance UnitResult_eq_dec : EqDecision UnitResult.
Proof. solve_decision. Defined.

(** [interface Job] *)
Record Job := {
  id : string;
  status : Status;
  progress : Z;
  total : Z;
  currentTask : string;
  results : list UnitResult;
  createdAt : Date;
  completedAt : option Date;
  error : option string;
}.

Global Instance Job_eq_dec : EqDecision Job.
Proof. solve_decision. Defined.

(** One property of a [Partial<Job>] object literal; the literal is the
    list of its properties. *)
Inductive Field :=
  | id_ (v : string)
  | status_ (v : Status)
  | progress_ (v : Z)
  | total_ (v : Z)
  | currentTask_ (v : string)
  | results_ (v : list UnitResult)
  | createdAt_ (v : Date)
  | completedAt_ (v : Date)
  | error_ (v : string).

Definition field_name (f : Field) : string :=
  match f with
  | id_ _ => "id" | status_ _ => "status" | progress_ _ => "progress"
  | total_ _ => "total" | currentTask_ _ => "currentTask"
  | results_ _ => "results" | createdAt_ _ => "createdAt"
  | completedAt_ _ => "completedAt" | error_ _ => "error"
  end.

Definition set_field (job : Job) (f : Field) : Job :=
  let '{| id := i; status := st; progress := p; total := t; currentTask := c;
          results := r; createdAt := ca; completedAt := co; error := e |} := job in
  match f with
  | id_ v => Build_Job v st p t c r ca co e
  | status_ v => Build_Job i v p t c r ca co e
  | progress_ v => Build_Job i st v t c r ca co e
  | total_ v => Build_Job i st p v c r ca co e
  | currentTask_ v => Build_Job i st p t v r ca co e
  | results_ v => Build_Job i st p t c v ca co e
  | createdAt_ v => Build_Job i st p t c r v co e
  | completedAt_ v => Build_Job i st p t c r ca (Some v) e
  | error_ v => Build_Job i st p t c r ca co (Some v)
  end.

(** [Object.assign(job, updates)] *)
Definition assign (job : Job) (updates : list Field) : Job :=
  foldl set_field job updates.

(** [job] has the value that the property [f] assigns. *)
Definition has_field (job : Job) (f : Field) : Prop :=
  match f with
  | id_ v => id job = v
  | status_ v => status job = v
  | progress_ v => progress job = v
  | total_ v => total job = v
  | currentTask_ v => currentTask job = v
  | results_ v => results job = v
  | createdAt_ v => createdAt job = v
  | completedAt_ v => completedAt job = Some v
  | error_ v => error job = Some v
  end.

(** ** Messages pushed over the WebSocket *)

(** The [job] object of a [job_update] message, as [updateJob] builds it. *)
Record JobUpdate := {
  ju_id : string;
  ju_status : Status;
  ju_progress : Z;
  ju_total : Z;
  ju_currentTask : string;
  ju_completedAt : option Date;
  ju_error : option string;
}.

Inductive Message :=
  | connected (message : string)
  | job_update (job : JobUpdate)
  | log (message : string) (timestamp : Date)
  | job_completed (message : string) (results : list UnitResult)
  | job_failed (message : string).

Global Instance JobUpdate_eq_dec : EqDecision JobUpdate.
Proof. solve_decision. Defined.
Global Instance Message_eq_dec : EqDecision Message.
Proof. solve_decision. Defined.

Inductive ReadyState := CONNECTING | OPEN | CLOSING | CLOSED.

Global Instance ReadyState_eq_dec : EqDecision ReadyState.
Proof. solve_decision. Defined.

(** One element of [wss.clients], with what was sent to it so far. *)
Record Client := {
  readyState : ReadyState;
  inbox : list Message;
}.

Definition send (m : Message) (c : Client) : Client :=
  {| readyState := readyState c; inbox := inbox c ++ [m] |}.

(** ** The server *)

(** Where a [runJob] call is suspended: the [await] it waits at, with the
    local variables that are live there. *)
Inductive Pc :=
  | AtReaddir                                          (* await fs.readdir(promptsDir) *)
  | AtReadFile (file : Path) (rest : list Path) (prompts : list string)
                                                       (* await fs.readFile(file, 'utf-8') *)
  | AtInit (prompts : list string)                     (* await worker.init() *)
  | AtEnsureDir (prompts : list string)                (* await fs.ensureDir(jobOutputDir) *)
  | AtRunJob (prompts : list string) (reported : nat)  (* await worker.runJob({...}) *)
  | AtCleanup (rethrow : option Thrown)                (* finally: await worker.cleanup() *)
  | Returned.                                          (* the promise of runJob is settled *)

(** A pending [setTimeout] of the auto-cleanup. *)
Record Timer := {
  due : N;
  dir : Path;
}.

Record Server := {
  jobs : gmap string Job;       (* JobManager.jobs *)
  clients : list Client;        (* wss.clients *)
  runners : gmap string Pc;     (* the runJob calls, by job id *)
  timers : list Timer;
  disk : Disk;
  clock : Date;                 (* what new Date() reads *)
  cwd : Path;                   (* process.cwd() *)
}.

Definition set_jobs (f : gmap string Job → gmap string Job) (s : Server) : Server :=
  {| jobs := f (jobs s); clients := clients s; runners := runners s;
     timers := timers s; disk := disk s; clock := clock s; cwd := cwd s |}.
Definition set_clients (f : list Client → list Client) (s : Server) : Server :=
  {| jobs := jobs s; clients := f (clients s); runners := runners s;
     timers := timers s; disk := disk s; clock := clock s; cwd := cwd s |}.
Definition set_runners (f : gmap string Pc → gmap string Pc) (s : Server) : Server :=
  {| jobs := jobs s; clients := clients s; runners := f (runners s);
     timers := timers s; disk := disk s; clock := clock s; cwd := cwd s |}.
Definition set_timers (f : list Timer → list Timer) (s : Server) : Server :=
  {| jobs := jobs s; clients := clients s; runners := runners s;
     timers := f (timers s); disk := disk s; clock := clock s; cwd := cwd s |}.
Definition set_disk (f : Disk → Disk) (s : Server) : Server :=
  {| jobs := jobs s; clients := clients s; runners := runners s;
     timers := timers s; disk := f (disk s); clock := clock s; cwd := cwd s |}.
Definition set_clock (f : Date → Date) (s : Server) : Server :=
  {| jobs := jobs s; clients := clients s; runners := runners s;
     timers := timers s; disk := disk s; clock := f (clock s); cwd := cwd s |}.

(** *** JobManager *)

(** [createJob()], with the identifier that [uuidv4()] draws. *)
Definition createJob (jobId : string) (s : Server) : Server :=
  let job := {| id := jobId; status := pending; progress := 0; total := 0;
                currentTask := ""; results := []; createdAt := clock s;
                completedAt := None; error := None |} in
  set_jobs <[jobId := job]> s.

(** [getJob(id)] *)
Definition getJob (jobId : string) (s : Server) : option Job := jobs s !! jobId.

(** [broadcast(data)]: one [send] to every client whose [readyState] is
    [OPEN]. *)
Definition broadcast (data : Message) (s : Server) : Server :=
  set_clients (map (fun client =>
    if decide (readyState client = OPEN) then send data client else client)) s.

Definition job_update_of (job : Job) : JobUpdate :=
  {| ju_id := id job; ju_status := status job; ju_progress := progress job;
     ju_total := total job; ju_currentTask := currentTask job;
     ju_completedAt := completedAt job; ju_error := error job |}.

(** [updateJob(id, updates)] *)
Definition updateJob (jobId : string) (updates : list Field) (s : Server) : Server :=
  match jobs s !! jobId with
  | None => s
  | Some job =>
      let job := assign job updates in
      broadcast (job_update (job_update_of job)) (set_jobs <[jobId := job]> s)
  end.

(** *** runJob

    [runJob] is an [async] function: it runs without interruption up to
    its next [await], and resumes when the awaited promise settles. Each
    definition below is one such uninterrupted segment; [Pc] records where
    the call is suspended in between. *)

(** [error instanceof Error ? error.message : 'Unknown error'] *)
Definition message_of (e : Thrown) : string :=
  match e with
  | ErrorObj m => m
  | NonError => "Unknown error"
  end.

Definition suspend (jobId : string) (pc : Pc) (s : Server) : Server :=
  set_runners <[jobId := pc]> s.

(** The [catch] block of [runJob]. *)
Definition runJob_catch (jobId : string) (e : Thrown) (s : Server) : Server :=
  let s := updateJob jobId
             [status_ failed; error_ (message_of e); currentTask_ "Failed";
              completedAt_ (clock s)] s in
  let s := broadcast (job_failed (message_of e)) s in
  suspend jobId Returned s.

(** From [this.updateJob(id, { total: prompts.length })] to
    [await worker.init()]. *)
Definition runJob_resolved (jobId : string) (prompts : list string) (s : Server) : Server :=
  let s := updateJob jobId [total_ (Z.of_nat (length prompts))] s in
  suspend jobId (AtInit prompts) s.

(** From the call to the first [await]. A call for an unknown job throws
    before the [try]; the promise is rejected and nothing else happens. *)
Definition runJob_start (jobId : string) (customPrompts : option (list string))
    (s : Server) : Server :=
  match jobs s !! jobId with
  | None => s
  | Some _ =>
      let s := updateJob jobId [status_ running; currentTask_ "Initializing..."] s in
      match customPrompts with
      | Some (p :: ps) =>
          let prompts := p :: ps in
          let s := updateJob jobId [currentTask_ "Using custom prompts..."] s in
          runJob_resolved jobId prompts s
      | _ =>
          let s := updateJob jobId [currentTask_ "Loading demo prompts..."] s in
          suspend jobId AtReaddir s
      end
  end.

Definition promptsDir (s : Server) : Path := path.resolve (cwd s) ["../prompts"].
Definition jobOutputDir (s : Server) (jobId : string) : Path :=
  path.resolve (cwd s) ["../outputs"; jobId].

(** After [fs.readdir(promptsDir)] settled with [r]. *)
Definition runJob_readdir (jobId : string) (r : Thrown + list string) (s : Server) : Server :=
  match r with
  | inl e => runJob_catch jobId e s
  | inr files =>
      let promptFiles :=
        map (fun f => path.join (promptsDir s) f)
            (filter (fun f => endsWith f ".txt") files) in
      match promptFiles with
      | [] => runJob_catch jobId (ErrorObj "No .txt files found in prompts folder") s
      | file :: rest => suspend jobId (AtReadFile file rest []) s
      end
  end.

(** After [fs.readFile(file, 'utf-8')] settled with [r], in the loop over
    [promptFiles]. *)
Definition runJob_readFile (jobId : string) (rest : list Path) (prompts : list string)
    (r : Thrown + string) (s : Server) : Server :=
  match r with
  | inl e => runJob_catch jobId e s
  | inr content =>
      let prompts := prompts ++ [trim content] in
      match rest with
      | file :: rest => suspend jobId (AtReadFile file rest prompts) s
      | [] => runJob_resolved jobId prompts s
      end
  end.

(** After [worker.init()] settled; [Some e] is a rejection. *)
Definition runJob_init (jobId : string) (prompts : list string) (r : option Thrown)
    (s : Server) : Server :=
  match r with
  | Some e => runJob_catch jobId e s
  | None => suspend jobId (AtEnsureDir prompts) s
  end.

(** After [fs.ensureDir(jobOutputDir)] settled. A rejection leaves the
    inner [try] through its [finally]. *)
Definition runJob_ensureDir (jobId : string) (prompts : list string) (s : Server) : Server :=
  match fs.ensureDir (disk s) (jobOutputDir s jobId) with
  | inl e => suspend jobId (AtCleanup (Some e)) s
  | inr d => suspend jobId (AtRunJob prompts 0) (set_disk (fun _ => d) s)
  end.

(** The [onProgress] callback handed to [worker.runJob]. *)
Definition onProgress (jobId : string) (current total : Z) (st : string) (s : Server) : Server :=
  let s := updateJob jobId [progress_ current; total_ total; currentTask_ st] s in
  broadcast (log ("[" +:+ pretty current +:+ "/" +:+ pretty total +:+ "] " +:+ st) (clock s)) s.

Definition successful (rs : list UnitResult) : nat :=
  length (filter (fun r => success r) rs).

(** After [worker.runJob] settled: the rest of the inner [try], or its
    exit towards [finally]. *)
Definition runJob_worker (jobId : string) (prompts : list string)
    (r : Thrown + list UnitResult) (s : Server) : Server :=
  match r with
  | inl e => suspend jobId (AtCleanup (Some e)) s
  | inr rs =>
      let s := updateJob jobId
                 [status_ completed; progress_ (Z.of_nat (length prompts));
                  currentTask_ "Completed successfully"; results_ rs;
                  completedAt_ (clock s)] s in
      let s := broadcast
                 (job_completed
                    ("✨ Job completed: " +:+ pretty (successful rs) +:+ "/" +:+
                     pretty (length rs) +:+ " prompts processed successfully") rs) s in
      let s := set_timers (fun ts =>
                 ts ++ [{| due := (clock s + 3600000)%N; dir := jobOutputDir s jobId |}]) s in
      suspend jobId (AtCleanup None) s
  end.

(** After [worker.cleanup()] settled in the [finally]: its own rejection
    wins, else the one that left the [try] is rethrown, else [runJob] returns. *)
Definition runJob_cleanup (jobId : string) (rethrow r : option Thrown) (s : Server) : Server :=
  match r, rethrow with
  | Some e, _ => runJob_catch jobId e s
  | None, Some e => runJob_catch jobId e s
  | None, None => suspend jobId Returned s
  end.

(** The auto-cleanup callback: [await fs.remove(jobOutputDir)] inside a
    [try]/[catch] that only logs; [r] is the rejection of [fs.remove], if
    it rejects. What a rejected [fs.remove] had removed before it failed
    is a change of the disk of its own ([DiskChanged]). *)
Definition auto_clean (t : Timer) (r : option Thrown) (s : Server) : Server :=
  match r with
  | None => set_disk (fun d => fs.remove d (dir t)) s
  | Some _ => s
  end.

(** *** HTTP handlers *)

Record Output := {
  filename : string;
  downloadUrl : string;
}.

Inductive Body :=
  | error_body (error : string)
  | started_body (jobId : string)
  | status_body (job : Job)
  | outputs_body (outputs : list Output).

Inductive Response :=
  | json (code : nat) (body : Body)
      (* res.status(code).json(body) *)
  | sendFile (headers : list (string * string)) (filePath : Path)
      (* the file at filePath is streamed, with these headers of the route
         (a GET without conditions or ranges) *)
  | page (code : nat).
      (* an answer of Express itself, not of the route: its HTML page *)

(** [res.setHeader(name, value)] of node throws unless every character of
    [value] is a tab or lies in U+0020..U+007E or U+0080..U+00FF. *)
Definition header_char (c : N) : bool :=
  ((c =? 9) || ((32 <=? c) && (c <=? 126)) || ((128 <=? c) && (c <=? 255)))%N.

Definition valid_header_value (value : string) : bool :=
  forallb header_char (code_points value).

(** *** res.sendFile

    What Express does with [res.sendFile(filePath)] for an absolute path
    and no options: it hands the path to the send package, whose errors
    go to [next(err)] and so to the error page of Express. The package
    manifest is not among the sources; the two lines of send differ in
    one point, and both are given. *)
Module express.

(** send 0.x comes with Express 4, send 1.x with Express 5. *)
Inductive Send := send0 | send1.

(** A path that send refuses as malicious: [..] between separators,
    a backslash counting as one. *)
Definition up_path (p : Path) : bool :=
  existsb (fun seg => bool_decide (".." ∈ split_on "\"%char [] (bytes seg))) p.

(** A dotfile, which send ignores when no [dotfiles] option is given:
    send 0.x judges by the last segment of the path, send 1.x by every
    segment. *)
Definition dotfile (v : Send) (p : Path) : bool :=
  match v with
  | send0 => match last p with Some f => startsWith f "." | None => false end
  | send1 => existsb (fun seg => startsWith seg ".") p
  end.

(** [res.sendFile(filePath)] on the disk [d], after the route has set
    [headers]: 403 for a malicious path and 404 for a dotfile; for the
    root, which ends in a slash, index.html is looked for; a regular file
    is streamed; a directory makes Express call [next()], and anything
    missing [next(err)]: both end in its 404 page. *)
Definition res_sendFile (v : Send) (headers : list (string * string)) (filePath : Path)
    (d : Disk) : Response :=
  if up_path filePath then page 403
  else if dotfile v filePath then page 404
  else
    let target := match filePath with [] => ["index.html"] | _ => filePath end in
    match fs.kind d target with
    | Some (File _) => sendFile headers target
    | _ => page 404
    end.

End express.

(** [POST /api/run] with body [{ prompts }]; [jobId] is what [uuidv4()]
    draws. *)
Definition post_run (jobId : string) (prompts : option (list string)) (s : Server)
    : Server * Response :=
  let s := createJob jobId s in
  let s := runJob_start jobId prompts s in
  (s, json 200 (started_body jobId)).

(** [GET /api/status/:jobId] *)
Definition get_status (jobId : string) (s : Server) : Response :=
  match getJob jobId s with
  | None => json 404 (error_body "Job not found")
  | Some job => json 200 (status_body job)
  end.

(** [GET /api/outputs/:jobId]; [d1] is the disk when [fs.pathExists]
    answers and [d2] the disk when [fs.readdir] does. *)
Definition get_outputs (jobId : string) (s : Server) (d1 d2 : Disk) : Response :=
  match getJob jobId s with
  | None => json 404 (error_body "Job not found")
  | Some _ =>
      if negb (fs.pathExists d1 (jobOutputDir s jobId)) then json 200 (outputs_body [])
      else
        match fs.readdir d2 (jobOutputDir s jobId) with
        | inl e => json 500 (error_body (message_of e))
        | inr files =>
            json 200 (outputs_body
              (map (fun f => {| filename := f;
                                downloadUrl := "/outputs/" +:+ jobId +:+ "/" +:+ f |})
                   (filter (fun f => endsWith f ".md") files)))
        end
  end.

(** [GET /outputs/:jobId/:filename]; [d1] is the disk when
    [fs.pathExists] answers and [d2] the disk when [res.sendFile] looks
    for the file. The second [res.setHeader] throws on a file name that a
    header cannot hold, and the [catch] of the route answers 500. *)
Definition get_file (v : express.Send) (jobId fname : string) (s : Server) (d1 d2 : Disk)
    : Response :=
  match getJob jobId s with
  | None => json 404 (error_body "Job not found")
  | Some _ =>
      let filePath := path.resolve (cwd s) ["../outputs"; jobId; fname] in
      if negb (fs.pathExists d1 filePath) then json 404 (error_body "File not found")
      else
        let disposition := "attachment; filename=" +:+ dquote +:+ fname +:+ dquote in
        if negb (valid_header_value disposition)
        then json 500 (error_body "Internal server error")
        else express.res_sendFile v
               [("Content-Type", "text/markdown"); ("Content-Disposition", disposition)]
               filePath d2
  end.

(** *** The event loop

    What can happen to the server, one event at a time. *)

Inductive Event :=
  | PostRun (jobId : string) (prompts : option (list string))
      (* POST /api/run; uuidv4() drew jobId *)
  | FsSettled (jobId : string)
      (* the fs promise that runner jobId awaits settles *)
  | InitSettled (jobId : string) (r : option Thrown)
      (* worker.init() of runner jobId settles *)
  | Progress (jobId : string) (current total : Z) (st : string)
      (* the worker of runner jobId calls onProgress *)
  | RunJobSettled (jobId : string) (r : Thrown + list UnitResult)
      (* worker.runJob of runner jobId settles *)
  | CleanupSettled (jobId : string) (r : option Thrown)
      (* worker.cleanup() of runner jobId settles *)
  | TimerFired (i : nat) (r : option Thrown)
      (* the i-th pending auto-cleanup timer fires; fs.remove rejects with r *)
  | Tick (ms : N)
      (* time passes *)
  | DiskChanged (d : Disk)
      (* something else (the worker, an operator) wrote to the disk *)
  | WsConnect
      (* wss.on('connection') *)
  | WsReadyState (i : nat) (rs : ReadyState).
      (* the socket of client i changes state *)

(** Modelled from the spec: what [worker.runJob] of the worker package
    (not part of these sources) does with [onProgress]: units are
    processed in list order and each processed unit is reported once, as
    [onProgress(k, n, status)] with [k] the number of units processed so
    far and [n] the number of units. *)
Definition worker_reports (prompts : list string) (reported : nat) (current total : Z) : Prop :=
  (reported < length prompts)%nat ∧
  current = Z.of_nat (S reported) ∧ total = Z.of_nat (length prompts).

(** Modelled from the spec: [worker.runJob] resolves with one result per
    unit, a failed unit included. *)
Definition worker_returns (prompts : list string) (rs : list UnitResult) : Prop :=
  length rs = length prompts.

Global Instance worker_reports_dec prompts reported current total :
  Decision (worker_reports prompts reported current total).
Proof. unfold worker_reports. apply _. Defined.

Global Instance worker_returns_dec prompts rs : Decision (worker_returns prompts rs).
Proof. unfold worker_returns. apply _. Defined.

Definition step (e : Event) (s : Server) : option Server :=
  match e with
  | PostRun jobId prompts =>
      (* uuidv4() does not repeat an identifier *)
      if decide (jobs s !! jobId = None ∧ runners s !! jobId = None)
      then Some (post_run jobId prompts s).1 else None
  | FsSettled jobId =>
      match runners s !! jobId with
      | Some AtReaddir =>
          Some (runJob_readdir jobId (fs.readdir (disk s) (promptsDir s)) s)
      | Some (AtReadFile file rest prompts) =>
          Some (runJob_readFile jobId rest prompts (fs.readFile (disk s) file) s)
      | Some (AtEnsureDir prompts) => Some (runJob_ensureDir jobId prompts s)
      | _ => None
      end
  | InitSettled jobId r =>
      match runners s !! jobId with
      | Some (AtInit prompts) => Some (runJob_init jobId prompts r s)
      | _ => None
      end
  | Progress jobId current total st =>
      match runners s !! jobId with
      | Some (AtRunJob prompts reported) =>
          if decide (worker_reports prompts reported current total)
          then Some (suspend jobId (AtRunJob prompts (S reported))
                       (onProgress jobId current total st s))
          else None
      | _ => None
      end
  | RunJobSettled jobId r =>
      match runners s !! jobId with
      | Some (AtRunJob prompts _) =>
          match r with
          | inl _ => Some (runJob_worker jobId prompts r s)
          | inr rs =>
              if decide (worker_returns prompts rs)
              then Some (runJob_worker jobId prompts r s)
              else None
          end
      | _ => None
      end
  | CleanupSettled jobId r =>
      match runners s !! jobId with
      | Some (AtCleanup rethrow) => Some (runJob_cleanup jobId rethrow r s)
      | _ => None
      end
  | TimerFired i r =>
      match timers s !! i with
      | Some t =>
          if decide (due t ≤ clock s)%N
          then Some (auto_clean t r (set_timers (delete i) s))
          else None
      | None => None
      end
  | Tick ms => Some (set_clock (fun t => (t + ms)%N) s)
  | DiskChanged d => Some (set_disk (fun _ => d) s)
  | WsConnect =>
      Some (set_clients (fun cs =>
              cs ++ [{| readyState := OPEN;
                        inbox := [connected "WebSocket connection established"] |}]) s)
  | WsReadyState i rs =>
      Some (set_clients (alter (fun c => {| readyState := rs; inbox := inbox c |}) i) s)
  end.

(** The server after a sequence of events, if each was possible. *)
Fixpoint run (es : list Event) (s : Server) : option Server :=
  match es with
  | [] => Some s
  | e :: es' =>
      match step e s with
      | Some s' => run es' s'
      | None => None
      end
  end.

(** The server when the process starts. *)
Definition boot (wd : Path) (d : Disk) (t : Date) : Server :=
  {| jobs := ∅; clients := []; runners := ∅; timers := [];
     disk := d; clock := t; cwd := wd |}.

Definition reachable (s : Server) : Prop :=
  ∃ wd d t es, run es (boot wd d t) = Some s.

Definition at_runJob (pc : Pc) : bool :=
  match pc with AtRunJob _ _ => true | _ => false end.

(** The runners whose [worker.runJob] call is in flight. *)
Definition in_flight (s : Server) : gmap string Pc :=
  filter (fun kv => at_runJob kv.2) (runners s).

(** *** What the statements below speak about *)

(** The jobs whose status is [running]. *)
Definition running_jobs (s : Server) : gmap string Job :=
  filter (fun kv => status kv.2 = running) (jobs s).

(** The unit list a suspended runner holds in [prompts], once resolved. *)
Definition unit_list (pc : Pc) : option (list string) :=
  match pc with
  | AtInit prompts | AtEnsureDir prompts | AtRunJob prompts _ => Some prompts
  | _ => None
  end.

(** [promptFiles] of [runJob], for the names [files] that [readdir] gave. *)
Definition promptFiles (s : Server) (files : list string) : list Path :=
  map (fun f => path.join (promptsDir s) f) (filter (fun f => endsWith f ".txt") files).

(** The contents of [files] on the disk [d], if all can be read. *)
Definition contents (d : Disk) (files : list Path) : option (list string) :=
  mapM (fun f => match fs.readFile d f with inr c => Some c | inl _ => None end) files.

(** What a job record looks like while its runner is suspended at [pc]. *)
Definition job_at (pc : Pc) (job : Job) : Prop :=
  match pc with
  | AtReaddir | AtReadFile _ _ _ =>
      status job = running ∧ progress job = 0 ∧ total job = 0 ∧ results job = []
  | AtInit prompts | AtEnsureDir prompts =>
      status job = running ∧ progress job = 0 ∧
      total job = Z.of_nat (length prompts) ∧ results job = []
  | AtRunJob prompts reported =>
      status job = running ∧ progress job = Z.of_nat reported ∧
      total job = Z.of_nat (length prompts) ∧ (reported ≤ length prompts)%nat ∧
      results job = []
  | AtCleanup (Some _) =>
      status job = running ∧ 0 ≤ progress job ≤ total job ∧ results job = []
  | AtCleanup None =>
      status job = completed ∧ 0 ≤ progress job ∧ progress job = total job ∧
      Z.of_nat (length (results job)) = progress job
  | Returned =>
      (status job = failed ∧ 0 ≤ progress job ≤ total job ∧
       (results job = [] ∨ Z.of_nat (length (results job)) = progress job)) ∨
      (status job = completed ∧ 0 ≤ progress job ∧ progress job = total job ∧
       Z.of_nat (length (results job)) = progress job)
  end.

(** Every job has its runner, and the record agrees with where the runner
    is. *)
Definition consistent (s : Server) : Prop :=
  ∀ jobId,
    match jobs s !! jobId, runners s !! jobId with
    | Some job, Some pc => job_at pc job
    | None, None => True
    | _, _ => False
    end.

(** Sample data. *)
Definition sample_result : UnitResult :=
  {| success := true; artifactRef := Some "001.md"; errorMessage := None;
     timestamp := 7%N |}.

Definition sample_job : Job :=
  {| id := "j1"; status := running; progress := 0; total := 2;
     currentTask := "Initializing..."; results := []; createdAt := 3%N;
     completedAt := None; error := None |}.

Definition sample_server : Server :=
  {| jobs := {[ "j1" := sample_job ]};
     clients := [ {| readyState := OPEN; inbox := [] |};
                  {| readyState := CLOSING; inbox := [] |} ];
     runners := {[ "j1" := AtRunJob ["A"; "B"] 0 ]};
     timers := [];
     disk := {[ ["app"; "outputs"; "j1"] := Dir;
                ["app"; "outputs"; "j1"; "001.md"] := File "# A";
                ["app"; "outputs"; "j1"; "trace.log"] := File "...";
                ["app"; "prompts"] := Dir;
                ["app"; "prompts"; "README.md"] := File "put prompts here" ]};
     clock := 10%N;
     cwd := ["app"; "api"] |}.

(** [sample_server] with two more files in the output directory of its
    job: a dotfile, and one with a name outside Latin-1. *)
Definition awkward_names_server : Server :=
  set_disk (fun d => <[ ["app"; "outputs"; "j1"; ".env"] := File "KEY=1" ]>
                     (<[ ["app"; "outputs"; "j1"; "文.log"] := File "..." ]> d))
           sample_server.

(** A process started in /app/api with two prompt files and a stray
    file in its prompts folder. *)
Definition prompts_server : Server :=
  boot ["app"; "api"]
       {[ ["app"; "prompts"] := Dir;
          ["app"; "prompts"; "a.txt"] := File "  Document the API
";
          ["app"; "prompts"; "b.txt"] := File "Write a changelog";
          ["app"; "prompts"; "notes.md"] := File "not a prompt" ]}
       1000%N.

(** A process started in /app/api whose prompts folder has no prompt. *)
Definition no_prompts_server : Server :=
  boot ["app"; "api"]
       {[ ["app"; "prompts"] := Dir;
          ["app"; "prompts"; "README.md"] := File "put prompts here" ]}
       1000%N.

(** A process started in /app/api with an empty disk. *)
Definition fresh_server : Server := boot ["app"; "api"] ∅ 1000%N.

(** The status of job [k], if there is such a job. *)
Definition status_of (s : Server) (k : string) : option Status :=
  status <$> jobs s !! k.

(** The job whose runner an event resumes or starts. *)
Definition subject (e : Event) : option string :=
  match e with
  | PostRun j _ | FsSettled j | InitSettled j _ | Progress j _ _ _
  | RunJobSettled j _ | CleanupSettled j _ => Some j
  | _ => None
  end.

(** The server after the events [es], from [s]. *)
Definition after (es : list Event) (s : Server) : Server := default s (run es s).

(** One job with the custom prompt A, up to the call of [worker.runJob]. *)
Definition one_job_trace : list Event :=
  [PostRun "j1" (Some ["A"]); InitSettled "j1" None; FsSettled "j1"].

(** A second POST /api/run while the first job is with the worker. *)
Definition two_jobs_trace : list Event :=
  one_job_trace ++ [PostRun "j2" (Some ["B"]); InitSettled "j2" None; FsSettled "j2"].

(** The worker reports the one unit of the job. *)
Definition progress_trace : list Event :=
  one_job_trace ++ [Progress "j1" 1 1 "Prompt 1/1 done"].

(** ... and resolves with its result. *)
Definition completed_trace : list Event :=
  progress_trace ++ [RunJobSettled "j1" (inr [sample_result]); Tick 5].

(** ... after which [worker.cleanup()] rejects. *)
Definition cleanup_rejects_trace : list Event :=
  completed_trace ++ [CleanupSettled "j1" (Some (ErrorObj "Target closed"))].

(** [worker.runJob] rejects instead, and [worker.cleanup()] goes through. *)
Definition worker_rejects_trace : list Event :=
  one_job_trace ++ [RunJobSettled "j1" (inl (ErrorObj "Target closed"));
                    CleanupSettled "j1" None].

(** The [job_update] payloads a client has received, in order. *)
Definition job_updates (c : Client) : list JobUpdate :=
  omap (fun m => match m with job_update j => Some j | _ => None end) (inbox c).

Definition failed_result : UnitResult :=
  {| success := false; artifactRef := None; errorMessage := Some "Timeout";
     timestamp := 9%N |}.

(** Two runs of one job, watched by one client; they differ in when the
    job is created and in what the worker returns. *)
Definition watched_trace_1 : list Event :=
  [WsConnect; Tick 5; PostRun "j1" (Some ["A"]); InitSettled "j1" None; FsSettled "j1";
   RunJobSettled "j1" (inr [sample_result])].

Definition watched_trace_2 : list Event :=
  [WsConnect; PostRun "j1" (Some ["A"]); Tick 5; InitSettled "j1" None; FsSettled "j1";
   RunJobSettled "j1" (inr [failed_result])].

(** *** What a record may become

    The object literals that [runJob] hands to [updateJob] for a job that
    is already in the table, with the status the job has at that moment;
    [[]] stands for a segment that does not write. *)
Definition runJob_write (now : Date) (st : Status) (updates : list Field) : Prop :=
  updates = [] ∨
  (st = running ∧ ∃ n, updates = [total_ n]) ∨
  (st = running ∧ ∃ current n task,
     updates = [progress_ current; total_ n; currentTask_ task]) ∨
  (st = running ∧ ∃ n rs,
     updates = [status_ completed; progress_ n; currentTask_ "Completed successfully";
                results_ rs; completedAt_ now]) ∨
  ((st = running ∨ st = completed) ∧ ∃ m,
     updates = [status_ failed; error_ m; currentTask_ "Failed"; completedAt_ now]).

(** What the fields that only [createJob] and the two final updates
    write look like for the job stored under [k], at the instant [now]. *)
Definition kept (now : Date) (k : string) (job : Job) : Prop :=
  id job = k ∧ (createdAt job ≤ now)%N ∧
  match status job with
  | pending | running => completedAt job = None ∧ error job = None
  | completed =>
      (∃ t, completedAt job = Some t ∧ (createdAt job ≤ t ≤ now)%N) ∧ error job = None
  | failed =>
      (∃ t, completedAt job = Some t ∧ (createdAt job ≤ t ≤ now)%N) ∧ is_Some (error job)
  end.

Definition all_kept (s : Server) : Prop :=
  ∀ k job, jobs s !! k = Some job → kept (clock s) k job.

(** Two servers that differ at most in their WebSocket clients. *)
Definition same_but_clients (s1 s2 : Server) : Prop :=
  jobs s1 = jobs s2 ∧ runners s1 = runners s2 ∧ timers s1 = timers s2 ∧
  disk s1 = disk s2 ∧ clock s1 = clock s2 ∧ cwd s1 = cwd s2.

(** The same clients, each with the same state and a longer inbox. *)
Definition grows (cs cs' : list Client) : Prop :=
  Forall2 (fun c c' => readyState c' = readyState c ∧ inbox c `prefix_of` inbox c') cs cs'.

Definition greeted (c : Client) : Prop :=
  ∃ rest, inbox c = connected "WebSocket connection established" :: rest.

(** Every pending timer is for the output directory of a job that has
    left [running]. *)
Definition timers_owned (s : Server) : Prop :=
  ∀ t, t ∈ timers s →
    ∃ k job, jobs s !! k = Some job ∧ dir t = jobOutputDir s k ∧ status job ≠ running.

(** *** The page (web/src/app/page.tsx)

    The state of [HomePage] that decides what is posted, and the controls
    that change it. A control can only be used while it is rendered: the
    textarea and the Remove button of prompt [index] exist for
    [index < prompts.length], the Remove buttons only when there is more
    than one prompt. *)
Module page.

Record State := {
  prompts : list string;
  useCustomPrompts : bool;
}.

(** [useState<string[]>([''])], [useState(false)] *)
Definition initial : State := {| prompts := [""]; useCustomPrompts := false |}.

(** [addPrompt] *)
Definition addPrompt (p : State) : State :=
  {| prompts := prompts p ++ [""]; useCustomPrompts := useCustomPrompts p |}.

(** [updatePrompt(index, value)], for [index < prompts.length] (the
    indices a textarea exists for; beyond them the JavaScript assignment
    would extend the array, which [use] below never asks for). *)
Definition updatePrompt (index : nat) (value : string) (p : State) : State :=
  {| prompts := <[index := value]> (prompts p); useCustomPrompts := useCustomPrompts p |}.

(** [removePrompt(index)] *)
Definition removePrompt (index : nat) (p : State) : State :=
  if decide (1 < length (prompts p))%nat
  then {| prompts := delete index (prompts p); useCustomPrompts := useCustomPrompts p |}
  else p.

Inductive Control :=
  | Add
  | Edit (index : nat) (value : string)
  | Remove (index : nat)
  | Choose (custom : bool).

Definition use (c : Control) (p : State) : option State :=
  match c with
  | Add => if useCustomPrompts p then Some (addPrompt p) else None
  | Edit index value =>
      if useCustomPrompts p && bool_decide (index < length (prompts p))%nat
      then Some (updatePrompt index value p) else None
  | Remove index =>
      if useCustomPrompts p && bool_decide (1 < length (prompts p))%nat
         && bool_decide (index < length (prompts p))%nat
      then Some (removePrompt index p) else None
  | Choose custom => Some {| prompts := prompts p; useCustomPrompts := custom |}
  end.

Fixpoint uses (cs : list Control) (p : State) : option State :=
  match cs with
  | [] => Some p
  | c :: cs' =>
      match use c p with
      | Some p' => uses cs' p'
      | None => None
      end
  end.

(** [p => p.trim()] as a filter: the prompts that are not blank. *)
Definition nonblank (ps : list string) : list string :=
  filter (fun p => trim p ≠ "") ps.

(** [validPrompts] *)
Definition validPrompts (p : State) : nat := length (nonblank (prompts p)).

(** [requestBody.prompts] of [startJob]: absent for [{}]. *)
Definition requestBody (p : State) : option (list string) :=
  if useCustomPrompts p then Some (nonblank (prompts p)) else None.

(** The part of the Run button's [disabled] that depends on the prompts:
    [useCustomPrompts && validPrompts === 0]. *)
Definition blocked (p : State) : bool :=
  useCustomPrompts p && bool_decide (validPrompts p = 0%nat).

End page.

(** *** The socket hook (useWebSocket)

    The log list that the hook keeps for the page. *)
Module hook.


(** [clearLogs] *)
Definition clearLogs : list (string * Date) := [].


End hook.




(** [prompts_server] after a POST /api/run with one custom prompt. *)
Definition prompts_job_server : Server :=
  after [PostRun "j1" (Some ["A"])] prompts_server.

(** ** Properties *)

(** Settles a decidable closed goal by evaluation. *)
Ltac by_compute := refine (bool_decide_unpack _ _); vm_compute; exact I.

(** *** Reachable servers *)

Lemma reachable_after (es : list Event) (wd : Path) (d : Disk) (t : Date) :
  is_Some (run es (boot wd d t)) → reachable (after es (boot wd d t)).
Proof.
  intros [s Hs]. exists wd, d, t, es. unfold after. by rewrite Hs.
Qed.

(** *** Strings and paths *)

Lemma of_bytes_bytes (s : string) : of_bytes (bytes s) = s.
Proof. apply String.string_of_list_ascii_of_string. Qed.

Lemma split_slash_plain (acc l : list ascii) :
  "/"%char ∉ l → split_slash acc l = [of_bytes (rev acc ++ l)].
Proof.
  revert acc. induction l as [|c l IH]; intros acc Hno; simpl.
  - by rewrite app_nil_r.
  - apply not_elem_of_cons in Hno as [Hc Hl].
    destruct (decide (c = "/"%char)) as [->|_]; [done|].
    rewrite IH by done. simpl. by rewrite <- app_assoc.
Qed.

Lemma segments_plain (f : string) : path.plain_name f → segments f = [f].
Proof.
  intros (_ & _ & _ & Hno). unfold segments.
  rewrite split_slash_plain by done. simpl. by rewrite of_bytes_bytes.
Qed.

Lemma push_segment_plain (stack : Path) (f : string) :
  path.plain_name f → path.push_segment stack f = stack ++ [f].
Proof.
  intros (H1 & H2 & H3 & _). unfold path.push_segment.
  destruct (decide (f = "" ∨ f = ".")) as [[?|?]|_]; [done..|].
  by destruct (decide (f = "..")).
Qed.

Lemma startsWith_slash_plain (f : string) :
  path.plain_name f → startsWith f "/" = false.
Proof.
  intros (_ & _ & _ & Hno). unfold startsWith.
  apply bool_decide_eq_false. intros [k Hk]. apply Hno.
  rewrite Hk. simpl. apply list_elem_of_here.
Qed.

(** Resolving one more plain name appends it. *)
Lemma resolve_plain (wd : Path) (args : list string) (f : string) :
  path.plain_name f →
  path.resolve wd (args ++ [f]) = path.resolve wd args ++ [f].
Proof.
  intros Hf. unfold path.resolve. rewrite foldl_app. simpl.
  unfold path.resolve_arg at 1.
  destruct (decide (f = "")) as [->|_]; [by destruct Hf|].
  rewrite startsWith_slash_plain, segments_plain by done. simpl.
  by apply push_segment_plain.
Qed.

(** *** The disk *)

Lemma strip_prefix_Some {A} `{EqDecision A} (p l r : list A) :
  strip_prefix p l = Some r ↔ l = p ++ r.
Proof.
  revert l. induction p as [|x p IH]; intros l; simpl.
  - split; congruence.
  - destruct l as [|y l]; [split; discriminate|].
    destruct (decide (x = y)) as [->|Hne].
    + rewrite IH. split; congruence.
    + split; [discriminate|]. intros [= -> _]. done.
Qed.

Lemma child_of_Some (p k : Path) (f : string) :
  fs.child_of p k = Some f ↔ k = p ++ [f].
Proof.
  unfold fs.child_of. destruct (strip_prefix p k) as [r|] eqn:Hr.
  - apply strip_prefix_Some in Hr as ->.
    destruct r as [|n [|n' r]]; split; try discriminate.
    + intros Heq. apply app_inv_head in Heq. discriminate.
    + congruence.
    + intros Heq. apply app_inv_head in Heq. congruence.
    + intros Heq. apply app_inv_head in Heq. discriminate.
  - split; [discriminate|]. intros ->.
    assert (strip_prefix p (p ++ [f]) = Some [f]) as Hs by by apply strip_prefix_Some.
    congruence.
Qed.

(** [readdir] lists exactly the names with an entry right below [p]. *)
Lemma elem_of_children (d : Disk) (p : Path) (f : string) :
  f ∈ fs.children d p ↔ is_Some (d !! (p ++ [f])).
Proof.
  unfold fs.children. rewrite merge_sort_Permutation, list_elem_of_omap. split.
  - intros ([k n] & Hin & Hc). apply elem_of_map_to_list in Hin.
    simpl in Hc. apply child_of_Some in Hc as ->. eauto.
  - intros [n Hn]. exists (p ++ [f], n). split.
    + by apply elem_of_map_to_list.
    + simpl. by apply child_of_Some.
Qed.

Lemma remove_lookup_below (d : Disk) (p k : Path) :
  p `prefix_of` k → fs.remove d p !! k = None.
Proof.
  intros Hpre. unfold fs.remove. apply map_lookup_filter_None. right.
  intros n _ Hno. by apply Hno.
Qed.

Lemma remove_lookup_other (d : Disk) (p k : Path) :
  ¬ p `prefix_of` k → fs.remove d p !! k = d !! k.
Proof.
  intros Hpre. unfold fs.remove.
  destruct (d !! k) as [n|] eqn:Hk.
  - apply map_lookup_filter_Some. done.
  - apply map_lookup_filter_None. by left.
Qed.

(** Removing what is not there changes nothing. *)
Lemma remove_missing (d : Disk) (p : Path) :
  (∀ k, p `prefix_of` k → d !! k = None) → fs.remove d p = d.
Proof.
  intros Hmiss. apply map_eq. intros k.
  destruct (decide (p `prefix_of` k)) as [Hpre|Hpre].
  - by rewrite remove_lookup_below, Hmiss.
  - by apply remove_lookup_other.
Qed.

(** *** The job table *)

Section registry.
Context (s : Server) (jobId : string).

Lemma updateJob_unknown updates :
  jobs s !! jobId = None → updateJob jobId updates s = s.
Proof. intros H. unfold updateJob. by rewrite H. Qed.

Lemma updateJob_known job updates :
  jobs s !! jobId = Some job →
  updateJob jobId updates s =
    broadcast (job_update (job_update_of (assign job updates)))
              (set_jobs <[jobId := assign job updates]> s).
Proof. intros H. unfold updateJob. by rewrite H. Qed.

Lemma updateJob_jobs job updates :
  jobs s !! jobId = Some job →
  jobs (updateJob jobId updates s) = <[jobId := assign job updates]> (jobs s).
Proof. intros H. by rewrite (updateJob_known job). Qed.

Lemma updateJob_rest updates :
  runners (updateJob jobId updates s) = runners s ∧
  timers (updateJob jobId updates s) = timers s ∧
  disk (updateJob jobId updates s) = disk s ∧
  clock (updateJob jobId updates s) = clock s ∧
  cwd (updateJob jobId updates s) = cwd s.
Proof. unfold updateJob. by destruct (jobs s !! jobId). Qed.
End registry.

(** *** Object.assign *)

Lemma has_field_set_other (job : Job) (f g : Field) :
  field_name f ≠ field_name g →
  has_field (set_field job f) g ↔ has_field job g.
Proof. destruct job, f, g; simpl; intros Hne; done. Qed.

Lemma has_field_set_same (job : Job) (f : Field) : has_field (set_field job f) f.
Proof. by destruct job, f. Qed.

Lemma has_field_assign_other (updates : list Field) (job : Job) (g : Field) :
  field_name g ∉ field_name <$> updates →
  has_field (assign job updates) g ↔ has_field job g.
Proof.
  unfold assign. revert job.
  induction updates as [|f updates IH]; intros job Hnot; simpl; [done|].
  rewrite fmap_cons in Hnot. apply not_elem_of_cons in Hnot as [Hne Hnot].
  rewrite IH by done. by apply has_field_set_other.
Qed.

Lemma has_field_assign (updates : list Field) (job : Job) :
  NoDup (field_name <$> updates) →
  Forall (has_field (assign job updates)) updates.
Proof.
  unfold assign. revert job.
  induction updates as [|f updates IH]; intros job Hnd; simpl; [constructor|].
  rewrite fmap_cons in Hnd. apply NoDup_cons in Hnd as [Hnot Hnd].
  constructor; [|by apply IH].
  apply (has_field_assign_other updates (set_field job f) f Hnot).
  apply has_field_set_same.
Qed.

(** *** updateJob *)

(** C8. [updateJob] on an identifier that is not in the job table returns
    without any effect: the server (job table, inboxes of the clients,
    everything else) is unchanged, and nothing is thrown. On a known
    identifier the whole object literal is applied at once: the entry
    becomes a record in which every listed property has its new value and
    every other property its old one, and no other entry changes. *)
Theorem updateJob_unknown_noop_known_whole
    (s : Server) (jobId : string) (updates : list Field) :
  NoDup (field_name <$> updates) →
  match jobs s !! jobId with
  | None => updateJob jobId updates s = s
  | Some job =>
      ∃ job', jobs (updateJob jobId updates s) = <[jobId := job']> (jobs s) ∧
              Forall (has_field job') updates ∧
              ∀ g, field_name g ∉ field_name <$> updates →
                   has_field job' g ↔ has_field job g
  end.
Proof.
  intros Hnd. destruct (jobs s !! jobId) as [job|] eqn:Hjob.
  - exists (assign job updates). split; [by apply updateJob_jobs|].
    split; [by apply has_field_assign|].
    intros g Hg. by apply has_field_assign_other.
  - by apply updateJob_unknown.
Qed.

Lemma updateJob_unknown_noop_known_whole_witness :
  updateJob "j9" [status_ failed; currentTask_ "Failed"] sample_server = sample_server ∧
  ∃ job', jobs (updateJob "j1" [progress_ 1; total_ 2] sample_server)
            = <[ "j1" := job' ]> (jobs sample_server) ∧
          progress job' = 1 ∧ status job' = running.
Proof.
  split.
  - apply (updateJob_unknown_noop_known_whole sample_server "j9"
             [status_ failed; currentTask_ "Failed"]).
    by_compute.
  - pose proof (updateJob_unknown_noop_known_whole sample_server "j1"
                  [progress_ 1; total_ 2]) as H.
    destruct H as (job' & Hjobs & Hset & Hkeep).
    { by_compute. }
    exists job'. split; [exact Hjobs|]. split.
    + by inversion Hset.
    + apply (Hkeep (status_ running)); [|done].
      by_compute.
Defined.

(** C4, as the code has it. A successful [updateJob] sends exactly one
    message to each client whose [readyState] is [OPEN] and none to the
    others; the message is a [job_update] carrying the [id], [status],
    [progress], [total], [currentTask], [completedAt] and [error] of the
    updated record (not its [results] and [createdAt]). *)
Theorem updateJob_broadcasts_once
    (s : Server) (jobId : string) (job : Job) (updates : list Field) :
  jobs s !! jobId = Some job →
  ∃ job' m,
    jobs (updateJob jobId updates s) !! jobId = Some job' ∧
    m = job_update {| ju_id := id job'; ju_status := status job';
                      ju_progress := progress job'; ju_total := total job';
                      ju_currentTask := currentTask job';
                      ju_completedAt := completedAt job'; ju_error := error job' |} ∧
    Forall2 (fun c c' =>
               readyState c' = readyState c ∧
               inbox c' = inbox c ++ (if decide (readyState c = OPEN) then [m] else []))
            (clients s) (clients (updateJob jobId updates s)).
Proof.
  intros Hjob. exists (assign job updates), (job_update (job_update_of (assign job updates))).
  split; [|split; [done|]].
  - rewrite (updateJob_jobs _ _ job) by done. apply lookup_insert_eq.
  - rewrite (updateJob_known _ _ job) by done. simpl.
    induction (clients s) as [|c cs IH]; simpl; constructor; [|done].
    destruct (decide (readyState c = OPEN)); simpl; [done|].
    by rewrite app_nil_r.
Qed.

Lemma updateJob_broadcasts_once_witness :
  ∃ job' m,
    jobs (updateJob "j1" [progress_ 1] sample_server) !! "j1" = Some job' ∧
    m = job_update {| ju_id := id job'; ju_status := status job';
                      ju_progress := progress job'; ju_total := total job';
                      ju_currentTask := currentTask job';
                      ju_completedAt := completedAt job'; ju_error := error job' |} ∧
    Forall2 (fun c c' =>
               readyState c' = readyState c ∧
               inbox c' = inbox c ++ (if decide (readyState c = OPEN) then [m] else []))
            (clients sample_server) (clients (updateJob "j1" [progress_ 1] sample_server)).
Proof.
  apply (updateJob_broadcasts_once sample_server "j1" sample_job [progress_ 1]).
  vm_compute. reflexivity.
Defined.

(** C4, as stated, fails: the [job_update] message does not carry
    [results] and [createdAt]. In two runs that differ in both, the
    client receives the same [job_update] payloads, while GET /api/status
    tells the two jobs apart. *)
Lemma job_update_omits_results_createdAt :
  reachable (after watched_trace_1 fresh_server) ∧
  reachable (after watched_trace_2 fresh_server) ∧
  job_updates <$> clients (after watched_trace_1 fresh_server)
    = job_updates <$> clients (after watched_trace_2 fresh_server) ∧
  (results <$> getJob "j1" (after watched_trace_1 fresh_server)) = Some [sample_result] ∧
  (results <$> getJob "j1" (after watched_trace_2 fresh_server)) = Some [failed_result] ∧
  (createdAt <$> getJob "j1" (after watched_trace_1 fresh_server)) = Some 1005%N ∧
  (createdAt <$> getJob "j1" (after watched_trace_2 fresh_server)) = Some 1000%N.
Proof.
  split; [apply reachable_after; by_compute|].
  split; [apply reachable_after; by_compute|].
  split_and!; by vm_compute.
Qed.

(** *** The HTTP read handlers *)

Lemma elem_of_outputs (jobId : string) (files : list string) (o : Output) :
  o ∈ map (fun f => {| filename := f;
                       downloadUrl := "/outputs/" +:+ jobId +:+ "/" +:+ f |})
          (filter (fun f => endsWith f ".md") files)
  ↔ filename o ∈ files ∧ endsWith (filename o) ".md" = true ∧
    downloadUrl o = "/outputs/" +:+ jobId +:+ "/" +:+ filename o.
Proof.
  rewrite list_elem_of_fmap. split.
  - intros (f & -> & Hf). apply list_elem_of_filter in Hf as [Hmd Hin].
    simpl. split; [done|]. split; [|done]. by apply Is_true_true.
  - intros (Hin & Hmd & Hurl). exists (filename o). split.
    + destruct o as [fn url]. simpl in *. by rewrite Hurl.
    + apply list_elem_of_filter. split; [|done]. by apply Is_true_true.
Qed.

(** C9. For a known job, GET /api/outputs/:jobId answers 200 with
    [{ outputs: [] }] when the job's output directory does not exist, and
    when it exists (as a directory) it answers 200 with one
    [{ filename, downloadUrl }] pair for each artifact (.md) file that is
    in the directory at that moment, [downloadUrl] being
    /outputs/<jobId>/<filename>. *)
Theorem get_outputs_lists_artifacts
    (s : Server) (jobId : string) (job : Job) (d1 d2 : Disk) :
  getJob jobId s = Some job →
  (fs.pathExists d1 (jobOutputDir s jobId) = false →
   get_outputs jobId s d1 d2 = json 200 (outputs_body [])) ∧
  (fs.pathExists d1 (jobOutputDir s jobId) = true →
   fs.kind d2 (jobOutputDir s jobId) = Some Dir →
   ∃ outputs,
     get_outputs jobId s d1 d2 = json 200 (outputs_body outputs) ∧
     ∀ o, o ∈ outputs ↔
          is_Some (d2 !! (jobOutputDir s jobId ++ [filename o])) ∧
          endsWith (filename o) ".md" = true ∧
          downloadUrl o = "/outputs/" +:+ jobId +:+ "/" +:+ filename o).
Proof.
  intros Hjob. unfold get_outputs. rewrite Hjob. split.
  - by intros ->.
  - intros -> Hdir. simpl. unfold fs.readdir. rewrite Hdir.
    eexists. split; [done|]. intros o.
    rewrite elem_of_outputs. by rewrite elem_of_children.
Qed.

Lemma get_outputs_lists_artifacts_witness :
  get_outputs "j1" sample_server ∅ ∅ = json 200 (outputs_body []) ∧
  ∃ outputs,
    get_outputs "j1" sample_server (disk sample_server) (disk sample_server)
      = json 200 (outputs_body outputs) ∧
    ∀ o, o ∈ outputs ↔
         is_Some (disk sample_server !! (jobOutputDir sample_server "j1" ++ [filename o])) ∧
         endsWith (filename o) ".md" = true ∧
         downloadUrl o = "/outputs/" +:+ "j1" +:+ "/" +:+ filename o.
Proof.
  split.
  - apply (get_outputs_lists_artifacts sample_server "j1" sample_job ∅ ∅); by vm_compute.
  - apply (get_outputs_lists_artifacts sample_server "j1" sample_job
             (disk sample_server) (disk sample_server)); by vm_compute.
Defined.

(** The path that the file route resolves for a plain name. *)
Lemma resolve_in_output_dir (s : Server) (jobId f : string) :
  path.plain_name f →
  path.resolve (cwd s) ["../outputs"; jobId; f] = jobOutputDir s jobId ++ [f].
Proof.
  intros Hplain. change ["../outputs"; jobId; f] with (["../outputs"; jobId] ++ [f]).
  by rewrite resolve_plain.
Qed.

Lemma kind_below (d : Disk) (p : Path) (f : string) : fs.kind d (p ++ [f]) = d !! (p ++ [f]).
Proof. unfold fs.kind. by destruct p. Qed.

(** What [res.sendFile] does with a path that send accepts. *)
Lemma res_sendFile_accepted (v : express.Send) (headers : list (string * string))
    (p : Path) (d : Disk) :
  p ≠ [] → express.up_path p = false → express.dotfile v p = false →
  express.res_sendFile v headers p d =
    match d !! p with
    | Some (File _) => sendFile headers p
    | _ => page 404
    end.
Proof.
  intros Hp Hup Hdot. unfold express.res_sendFile. rewrite Hup, Hdot.
  by destruct p.
Qed.

(** C10, as the code has it. In a job's output directory, the listing
    of GET /api/outputs/:jobId has only names that end in .md; a file [f]
    of the directory whose name does not end in .md is not listed, and yet
    GET /outputs/:jobId/f serves it, with Content-Type text/markdown, when
    the name fits in the Content-Disposition header and send accepts the
    path (no [..] segment, no dotfile). *)
Theorem get_outputs_md_only_get_file_any
    (v : express.Send) (s : Server) (jobId : string) (job : Job) (f c : string) (d : Disk) :
  getJob jobId s = Some job →
  fs.kind d (jobOutputDir s jobId) = Some Dir →
  d !! (jobOutputDir s jobId ++ [f]) = Some (File c) →
  path.plain_name f →
  endsWith f ".md" = false →
  valid_header_value ("attachment; filename=" +:+ dquote +:+ f +:+ dquote) = true →
  express.up_path (jobOutputDir s jobId ++ [f]) = false →
  express.dotfile v (jobOutputDir s jobId ++ [f]) = false →
  (∃ outputs,
     get_outputs jobId s d d = json 200 (outputs_body outputs) ∧
     (∀ o, o ∈ outputs → endsWith (filename o) ".md" = true) ∧
     f ∉ map filename outputs) ∧
  get_file v jobId f s d d =
    sendFile [("Content-Type", "text/markdown");
              ("Content-Disposition", "attachment; filename=" +:+ dquote +:+ f +:+ dquote)]
             (jobOutputDir s jobId ++ [f]).
Proof.
  intros Hjob Hdir Hf Hplain Hmd Hheader Hup Hdot. split.
  - unfold get_outputs, fs.pathExists, fs.readdir. rewrite Hjob, Hdir. simpl.
    eexists. split; [done|]. split.
    + intros o Ho. by apply elem_of_outputs in Ho as (_ & ? & _).
    + rewrite list_elem_of_fmap. intros (o & -> & Ho).
      apply elem_of_outputs in Ho as (_ & Ho & _). congruence.
  - unfold get_file. rewrite Hjob, resolve_in_output_dir by done.
    unfold fs.pathExists. rewrite kind_below, Hf. cbn [negb]. rewrite Hheader. cbn [negb].
    rewrite res_sendFile_accepted, Hf; [done| |done..].
    by destruct (jobOutputDir s jobId).
Qed.

Lemma get_outputs_md_only_get_file_any_witness :
  (∃ outputs,
     get_outputs "j1" sample_server (disk sample_server) (disk sample_server)
       = json 200 (outputs_body outputs) ∧
     (∀ o, o ∈ outputs → endsWith (filename o) ".md" = true) ∧
     "trace.log" ∉ map filename outputs) ∧
  get_file express.send1 "j1" "trace.log" sample_server (disk sample_server) (disk sample_server) =
    sendFile [("Content-Type", "text/markdown");
              ("Content-Disposition",
               "attachment; filename=" +:+ dquote +:+ "trace.log" +:+ dquote)]
             (jobOutputDir sample_server "j1" ++ ["trace.log"]).
Proof.
  apply (get_outputs_md_only_get_file_any express.send1 sample_server "j1" sample_job
           "trace.log" "..." (disk sample_server)).
  - vm_compute. reflexivity.
  - vm_compute. reflexivity.
  - vm_compute. reflexivity.
  - by_compute.
  - vm_compute. reflexivity.
  - vm_compute. reflexivity.
  - vm_compute. reflexivity.
  - vm_compute. reflexivity.
Defined.

(** C10, as stated, fails: a file of the output directory whose name
    does not end in .md is not always served. A dotfile gets the 404 page
    of Express, whichever send is installed, and a file whose name has a
    character above U+00FF gets the 500 of the route, because
    [res.setHeader] throws on the Content-Disposition value. Both files
    exist, and neither is listed. *)
Lemma unlisted_file_not_always_served :
  let s := awkward_names_server in
  getJob "j1" s = Some sample_job ∧
  disk s !! (jobOutputDir s "j1" ++ [".env"]) = Some (File "KEY=1") ∧
  disk s !! (jobOutputDir s "j1" ++ ["文.log"]) = Some (File "...") ∧
  endsWith ".env" ".md" = false ∧ endsWith "文.log" ".md" = false ∧
  get_outputs "j1" s (disk s) (disk s)
    = json 200 (outputs_body [{| filename := "001.md"; downloadUrl := "/outputs/j1/001.md" |}]) ∧
  get_file express.send0 "j1" ".env" s (disk s) (disk s) = page 404 ∧
  get_file express.send1 "j1" ".env" s (disk s) (disk s) = page 404 ∧
  get_file express.send0 "j1" "文.log" s (disk s) (disk s)
    = json 500 (error_body "Internal server error") ∧
  get_file express.send1 "j1" "文.log" s (disk s) (disk s)
    = json 500 (error_body "Internal server error").
Proof. repeat split; vm_compute; reflexivity. Qed.

(** *** The event loop keeps records and runners in step *)

Lemma updateJob_alter (jobId : string) (updates : list Field) (s : Server) :
  jobs (updateJob jobId updates s) = alter (fun job => assign job updates) jobId (jobs s).
Proof.
  unfold updateJob. destruct (jobs s !! jobId) as [job|] eqn:Hjob; simpl.
  - apply map_eq. intros k. destruct (decide (jobId = k)) as [<-|Hne].
    + by rewrite lookup_insert_eq, lookup_alter_eq, Hjob.
    + by rewrite lookup_insert_ne, lookup_alter_ne.
  - apply map_eq. intros k. destruct (decide (jobId = k)) as [<-|Hne].
    + by rewrite lookup_alter_eq, Hjob.
    + by rewrite lookup_alter_ne.
Qed.

Lemma updateJob_runners (jobId : string) (updates : list Field) (s : Server) :
  runners (updateJob jobId updates s) = runners s.
Proof. apply updateJob_rest. Qed.

Lemma updateJob_timers (jobId : string) (updates : list Field) (s : Server) :
  timers (updateJob jobId updates s) = timers s.
Proof. apply updateJob_rest. Qed.

Lemma updateJob_disk (jobId : string) (updates : list Field) (s : Server) :
  disk (updateJob jobId updates s) = disk s.
Proof. apply updateJob_rest. Qed.

Lemma updateJob_clock (jobId : string) (updates : list Field) (s : Server) :
  clock (updateJob jobId updates s) = clock s.
Proof. apply updateJob_rest. Qed.

Lemma updateJob_cwd (jobId : string) (updates : list Field) (s : Server) :
  cwd (updateJob jobId updates s) = cwd s.
Proof. apply updateJob_rest. Qed.

(** Reduces the projections of a segment's result to those of the server
    it started from. *)
Ltac shape :=
  repeat first
    [ progress cbn [jobs runners timers disk clock cwd suspend set_runners set_jobs
                    set_clients set_timers set_disk set_clock broadcast auto_clean]
    | rewrite updateJob_alter
    | rewrite updateJob_runners
    | rewrite updateJob_timers
    | rewrite updateJob_disk
    | rewrite updateJob_clock
    | rewrite updateJob_cwd ].

Lemma consistent_boot (wd : Path) (d : Disk) (t : Date) : consistent (boot wd d t).
Proof. intros k. simpl. by rewrite !lookup_empty. Qed.

Lemma consistent_lookup (s : Server) (jobId : string) (pc : Pc) :
  consistent s → runners s !! jobId = Some pc →
  ∃ job, jobs s !! jobId = Some job ∧ job_at pc job.
Proof.
  intros Hc Hpc. specialize (Hc jobId). rewrite Hpc in Hc.
  destruct (jobs s !! jobId) as [job|]; [eauto|done].
Qed.

Lemma consistent_job (s : Server) (jobId : string) (job : Job) :
  consistent s → jobs s !! jobId = Some job →
  ∃ pc, runners s !! jobId = Some pc ∧ job_at pc job.
Proof.
  intros Hc Hjob. specialize (Hc jobId). rewrite Hjob in Hc.
  destruct (runners s !! jobId) as [pc|]; [eauto|done].
Qed.

Lemma consistent_same (s s' : Server) :
  consistent s → jobs s' = jobs s → runners s' = runners s → consistent s'.
Proof. intros Hc Hj Hr k. rewrite Hj, Hr. apply Hc. Qed.

(** A segment of runner [jobId] rewrites that job's record and moves that
    runner; what it must establish is [job_at] for the new pair. *)
Lemma consistent_step (s s' : Server) (jobId : string) (F : Job → Job) (pc pc' : Pc) :
  consistent s →
  runners s !! jobId = Some pc →
  jobs s' = alter F jobId (jobs s) →
  runners s' = <[jobId := pc']> (runners s) →
  (∀ job, job_at pc job → job_at pc' (F job)) →
  consistent s'.
Proof.
  intros Hc Hpc Hj Hr HF k. rewrite Hj, Hr.
  destruct (decide (jobId = k)) as [<-|Hne].
  - rewrite lookup_alter_eq, lookup_insert_eq.
    destruct (consistent_lookup s jobId pc Hc Hpc) as (job & -> & Hat).
    simpl. by apply HF.
  - rewrite lookup_alter_ne, lookup_insert_ne by done. apply Hc.
Qed.

(** In every position the counters are in range and [results] is empty
    or as long as [progress]. *)
Lemma job_at_bounds (pc : Pc) (job : Job) :
  job_at pc job →
  0 ≤ progress job ≤ total job ∧
  (results job = [] ∨ Z.of_nat (length (results job)) = progress job).
Proof.
  destruct pc as [| | | | |[e|]|]; simpl; intros H;
    try (destruct H as (? & ? & ? & ?); split; [lia|by left]).
  - destruct H as (? & ? & ? & ? & ?). split; [lia|by left].
  - destruct H as (? & ? & ?). split; [lia|by left].
  - destruct H as (? & ? & ? & ?). split; [lia|by right].
  - destruct H as [(? & ? & ?)|(? & ? & ? & ?)]; [done|]. split; [lia|by right].
Qed.

Lemma runJob_catch_consistent (s : Server) (jobId : string) (pc : Pc) (e : Thrown) :
  consistent s → runners s !! jobId = Some pc → consistent (runJob_catch jobId e s).
Proof.
  intros Hc Hpc.
  eapply (consistent_step s _ jobId _ pc Returned Hc Hpc).
  - unfold runJob_catch. shape. reflexivity.
  - unfold runJob_catch. shape. reflexivity.
  - intros job Hat. apply job_at_bounds in Hat. destruct job. simpl in *. by left.
Qed.

Lemma runJob_resolved_consistent (s : Server) (jobId : string) (pc : Pc)
    (prompts : list string) :
  consistent s → runners s !! jobId = Some pc →
  (∀ job, job_at pc job → status job = running ∧ progress job = 0 ∧ results job = []) →
  consistent (runJob_resolved jobId prompts s).
Proof.
  intros Hc Hpc Hrun.
  eapply (consistent_step s _ jobId _ pc (AtInit prompts) Hc Hpc).
  - unfold runJob_resolved. shape. reflexivity.
  - unfold runJob_resolved. shape. reflexivity.
  - intros job Hat. apply Hrun in Hat as (? & ? & ?). by destruct job; simpl in *.
Qed.

Lemma consistent_move (s s' : Server) (jobId : string) (pc pc' : Pc) :
  consistent s →
  runners s !! jobId = Some pc →
  jobs s' = jobs s →
  runners s' = <[jobId := pc']> (runners s) →
  (∀ job, job_at pc job → job_at pc' job) →
  consistent s'.
Proof.
  intros Hc Hpc Hj Hr HF.
  apply (consistent_step s s' jobId (fun job => job) pc pc'); try done.
  rewrite Hj. apply map_eq. intros k.
  destruct (decide (jobId = k)) as [<-|Hne].
  - rewrite lookup_alter_eq. by destruct (jobs s !! jobId).
  - by rewrite lookup_alter_ne.
Qed.

Lemma post_run_consistent (s : Server) (jobId : string) (body : option (list string)) :
  consistent s → jobs s !! jobId = None → runners s !! jobId = None →
  consistent (post_run jobId body s).1.
Proof.
  intros Hc Hj Hr k. unfold post_run, runJob_start, createJob. simpl.
  rewrite lookup_insert_eq.
  destruct body as [[|p ps]|]; unfold runJob_resolved; shape;
    rewrite ?alter_insert_eq; (destruct (decide (jobId = k)) as [<-|Hne];
    [ rewrite !lookup_insert_eq; simpl; done
    | rewrite !lookup_insert_ne by done; apply Hc ]).
Qed.

(** Closes the conjuncts of a [job_at] goal. *)
Ltac fields := repeat split; first [done | lia | congruence].

Lemma step_consistent (e : Event) (s s' : Server) :
  consistent s → step e s = Some s' → consistent s'.
Proof.
  intros Hc Hstep. destruct e as [j body|j|j r|j cur tot st|j r|j r|i fr|ms|d| |i rs];
    simpl in Hstep.
  - (* POST /api/run *)
    destruct (decide _) as [[Hj Hr]|]; [|done]. injection Hstep as <-.
    by apply post_run_consistent.
  - (* an fs promise settles *)
    destruct (runners s !! j) as [pc|] eqn:Hpc; [|done].
    destruct pc as [|file rest prompts| |prompts| | |]; try done; injection Hstep as <-.
    + unfold runJob_readdir. destruct (fs.readdir _ _) as [e|files].
      { by eapply runJob_catch_consistent. }
      destruct (map _ _) as [|file rest].
      { by eapply runJob_catch_consistent. }
      by eapply (consistent_move s _ j AtReaddir (AtReadFile file rest [])).
    + unfold runJob_readFile. destruct (fs.readFile _ _) as [e|content].
      { by eapply runJob_catch_consistent. }
      destruct rest as [|file' rest'].
      * eapply runJob_resolved_consistent; [done..|]. simpl. tauto.
      * by eapply (consistent_move s _ j (AtReadFile file (file' :: rest') prompts)
                     (AtReadFile file' rest' _)).
    + unfold runJob_ensureDir. destruct (fs.ensureDir _ _) as [e|d].
      * by eapply (consistent_move s _ j (AtEnsureDir prompts) (AtCleanup (Some e)));
          [..|simpl; intros job (? & ? & ? & ?); fields].
      * by eapply (consistent_move s _ j (AtEnsureDir prompts) (AtRunJob prompts 0));
          [..|simpl; intros job (? & ? & ? & ?); fields].
  - (* worker.init() settles *)
    destruct (runners s !! j) as [[| | prompts| | | |]|] eqn:Hpc; try done.
    injection Hstep as <-. unfold runJob_init. destruct r as [e|].
    + by eapply runJob_catch_consistent.
    + by eapply (consistent_move s _ j (AtInit prompts) (AtEnsureDir prompts)).
  - (* onProgress *)
    destruct (runners s !! j) as [[| | | |prompts k| |]|] eqn:Hpc; try done.
    destruct (decide _) as [(Hk & -> & ->)|]; [|done]. injection Hstep as <-.
    eapply (consistent_step s _ j _ (AtRunJob prompts k) (AtRunJob prompts (S k)) Hc Hpc).
    + unfold onProgress. shape. reflexivity.
    + unfold onProgress. shape. reflexivity.
    + intros job (? & ? & ? & ? & ?). destruct job; simpl in *.
      fields.
  - (* worker.runJob settles *)
    destruct (runners s !! j) as [[| | | |prompts k| |]|] eqn:Hpc; try done.
    destruct r as [e|rs].
    + injection Hstep as <-. unfold runJob_worker.
      by eapply (consistent_move s _ j (AtRunJob prompts k) (AtCleanup (Some e)));
        [..|simpl; intros job (? & ? & ? & ? & ?); fields].
    + destruct (decide _) as [Hrs|]; [|done]. injection Hstep as <-.
      eapply (consistent_step s _ j _ (AtRunJob prompts k) (AtCleanup None) Hc Hpc).
      * unfold runJob_worker. shape. reflexivity.
      * unfold runJob_worker. shape. reflexivity.
      * intros job (? & ? & ? & ? & ?). unfold worker_returns in Hrs.
        destruct job; simpl in *. fields.
  - (* worker.cleanup() settles *)
    destruct (runners s !! j) as [[| | | | |rethrow|]|] eqn:Hpc; try done.
    injection Hstep as <-. unfold runJob_cleanup.
    destruct r as [e|]; [by eapply runJob_catch_consistent|].
    destruct rethrow as [e|]; [by eapply runJob_catch_consistent|].
    by eapply (consistent_move s _ j (AtCleanup None) Returned);
      [..|simpl; intros job ?; right].
  - (* a timer fires *)
    destruct (timers s !! i) as [t|]; [|done].
    destruct (decide _); [|done]. injection Hstep as <-. destruct fr; by eapply consistent_same.
  - injection Hstep as <-. by eapply consistent_same.
  - injection Hstep as <-. by eapply consistent_same.
  - injection Hstep as <-. by eapply consistent_same.
  - injection Hstep as <-. by eapply consistent_same.
Qed.

Lemma run_consistent (es : list Event) (s s' : Server) :
  consistent s → run es s = Some s' → consistent s'.
Proof.
  revert s. induction es as [|e es IH]; intros s Hc Hrun; simpl in Hrun.
  - by injection Hrun as <-.
  - destruct (step e s) as [s1|] eqn:Hstep; [|done].
    eapply IH; [|done]. by eapply step_consistent.
Qed.

Lemma reachable_consistent (s : Server) : reachable s → consistent s.
Proof.
  intros (wd & d & t & es & Hrun).
  eapply run_consistent; [|done]. apply consistent_boot.
Qed.

(** *** Resolving the unit list *)

(** What POST /api/run leaves behind for a fresh identifier. *)
Lemma post_run_custom (s : Server) (jobId : string) (p : string) (ps : list string) :
  jobs s !! jobId = None →
  let s' := (post_run jobId (Some (p :: ps)) s).1 in
  runners s' = <[jobId := AtInit (p :: ps)]> (runners s) ∧
  jobs s' = <[jobId := {| id := jobId; status := running; progress := 0;
                          total := Z.of_nat (length (p :: ps));
                          currentTask := "Using custom prompts..."; results := [];
                          createdAt := clock s; completedAt := None; error := None |}]>
              (jobs s) ∧
  disk s' = disk s ∧ cwd s' = cwd s ∧ timers s' = timers s ∧ clock s' = clock s.
Proof.
  intros Hj. unfold post_run, runJob_start, createJob, runJob_resolved. simpl.
  rewrite lookup_insert_eq. shape. by rewrite !alter_insert_eq.
Qed.

Lemma post_run_default (s : Server) (jobId : string) (body : option (list string)) :
  jobs s !! jobId = None →
  body = None ∨ body = Some [] →
  let s' := (post_run jobId body s).1 in
  runners s' = <[jobId := AtReaddir]> (runners s) ∧
  jobs s' = <[jobId := {| id := jobId; status := running; progress := 0; total := 0;
                          currentTask := "Loading demo prompts..."; results := [];
                          createdAt := clock s; completedAt := None; error := None |}]>
              (jobs s) ∧
  disk s' = disk s ∧ cwd s' = cwd s ∧ timers s' = timers s ∧ clock s' = clock s.
Proof.
  intros Hj Hbody. unfold post_run, runJob_start, createJob. simpl.
  rewrite lookup_insert_eq.
  destruct Hbody as [-> | ->]; shape; by rewrite !alter_insert_eq.
Qed.

(** C6. A run started without custom prompts (none, or an empty list)
    waits for the [readdir] of the prompts folder; when that folder has
    no .txt file, the job ends at once, whatever else the server did in
    between: it is [failed] with the non-empty error message
    No .txt files found in prompts folder, [total] is still 0,
    [results] is still empty, and the runner has returned without ever
    calling the worker. *)
Theorem empty_default_source_fails
    (s : Server) (jobId : string) (body : option (list string)) :
  jobs s !! jobId = None →
  runners s !! jobId = None →
  body = None ∨ body = Some [] →
  ∃ s1,
    step (PostRun jobId body) s = Some s1 ∧
    runners s1 !! jobId = Some AtReaddir ∧
    ∀ s1' files,
      reachable s1' →
      runners s1' !! jobId = Some AtReaddir →
      fs.readdir (disk s1') (promptsDir s1') = inr files →
      filter (fun f => endsWith f ".txt") files = [] →
      ∃ s2 job msg,
        step (FsSettled jobId) s1' = Some s2 ∧
        runners s2 !! jobId = Some Returned ∧
        jobs s2 !! jobId = Some job ∧
        status job = failed ∧
        error job = Some msg ∧ msg = "No .txt files found in prompts folder" ∧ msg ≠ "" ∧
        total job = 0 ∧ progress job = 0 ∧ results job = [].
Proof.
  intros Hj Hr Hbody.
  destruct (post_run_default s jobId body Hj Hbody) as (Hr1 & _).
  exists (post_run jobId body s).1. split_and!.
  - simpl. by rewrite decide_True.
  - rewrite Hr1. apply lookup_insert_eq.
  - intros s1' files Hc Hpc Hdir Htxt. apply reachable_consistent in Hc.
    destruct (consistent_lookup s1' jobId _ Hc Hpc) as (job & Hjob & _ & Hp & Ht & Hres).
    exists (runJob_catch jobId (ErrorObj "No .txt files found in prompts folder") s1').
    eexists. exists "No .txt files found in prompts folder".
    split_and!.
    + simpl. rewrite Hpc, Hdir. unfold runJob_readdir. by rewrite Htxt.
    + unfold runJob_catch. shape. apply lookup_insert_eq.
    + unfold runJob_catch. shape. by rewrite lookup_alter_eq, Hjob.
    + by destruct job.
    + by destruct job.
    + done.
    + done.
    + by destruct job.
    + by destruct job.
    + by destruct job.
Qed.

Lemma empty_default_source_fails_witness :
  ∃ s1,
    step (PostRun "j2" None) no_prompts_server = Some s1 ∧
    runners s1 !! "j2" = Some AtReaddir ∧
    ∃ s2 job msg,
      step (FsSettled "j2") (after [PostRun "j2" None; Tick 3] no_prompts_server) = Some s2 ∧
      runners s2 !! "j2" = Some Returned ∧
      jobs s2 !! "j2" = Some job ∧
      status job = failed ∧
      error job = Some msg ∧ msg = "No .txt files found in prompts folder" ∧ msg ≠ "" ∧
      total job = 0 ∧ progress job = 0 ∧ results job = [].
Proof.
  destruct (empty_default_source_fails no_prompts_server "j2" None)
    as (s1 & Hstep & Hpc & Hfail); [by vm_compute|by vm_compute|by left|].
  exists s1. split; [exact Hstep|]. split; [exact Hpc|].
  apply (Hfail (after [PostRun "j2" None; Tick 3] no_prompts_server) ["README.md"]).
  - apply reachable_after. by_compute.
  - by vm_compute.
  - by vm_compute.
  - by vm_compute.
Defined.

(** The loop over [promptFiles]: one [readFile] after the other, each
    content trimmed and pushed, then [total] is set. *)
Lemma read_loop (jobId : string) (rest : list Path) :
  ∀ (file : Path) (acc : list string) (s : Server) (cs : list string),
    runners s !! jobId = Some (AtReadFile file rest acc) →
    contents (disk s) (file :: rest) = Some cs →
    ∃ s', run (replicate (S (length rest)) (FsSettled jobId)) s = Some s' ∧
          runners s' = <[jobId := AtInit (acc ++ map trim cs)]> (runners s) ∧
          jobs s' = alter (fun job =>
                      assign job [total_ (Z.of_nat (length (acc ++ map trim cs)))])
                      jobId (jobs s).
Proof.
  induction rest as [|file' rest' IH]; intros file acc s cs Hpc Hcs;
    unfold contents in Hcs; simpl in Hcs;
    destruct (fs.readFile (disk s) file) as [e|c] eqn:Hread; try done; simpl in Hcs.
  - injection Hcs as <-. eexists. simpl. rewrite Hpc, Hread. split; [done|].
    unfold runJob_readFile, runJob_resolved. shape. done.
  - destruct (fs.readFile (disk s) file') as [e'|c'] eqn:Hread'; [done|]. simpl in Hcs.
    destruct (mapM _ rest') as [cs'|] eqn:Hrest; [|done]. simpl in Hcs.
    injection Hcs as <-.
    set (s1 := suspend jobId (AtReadFile file' rest' (acc ++ [trim c])) s).
    destruct (IH file' (acc ++ [trim c]) s1 (c' :: cs')) as (s' & Hrun & Hr & Hj).
    { apply lookup_insert_eq. }
    { unfold contents. simpl. rewrite Hread'. simpl. by rewrite Hrest. }
    exists s'. split_and!.
    + change (replicate (S (length (file' :: rest'))) (FsSettled jobId))
        with (FsSettled jobId :: replicate (S (length rest')) (FsSettled jobId)).
      simpl. rewrite Hpc, Hread. exact Hrun.
    + rewrite Hr. simpl. rewrite insert_insert_eq. by rewrite <- app_assoc.
    + rewrite Hj. simpl. by rewrite <- app_assoc.
Qed.

(** Once resolved, the unit list of a runner does not change: it is the
    list that [worker.runJob] is called with, and the runner holds it
    until that call settles. *)
Lemma unit_list_kept (e : Event) (s s' : Server) (k : string) (pc : Pc)
    (prompts : list string) :
  step e s = Some s' →
  runners s !! k = Some pc → unit_list pc = Some prompts →
  ∃ pc', runners s' !! k = Some pc' ∧
         (unit_list pc' = Some prompts ∨ unit_list pc' = None).
Proof.
  intros Hstep Hpc Hunits.
  assert (∀ j pc0 s0, runners s0 = runners s → j ≠ k →
            ∃ pc', runners (suspend j pc0 s0) !! k = Some pc' ∧
                   (unit_list pc' = Some prompts ∨ unit_list pc' = None)) as Hother.
  { intros j pc0 s0 Hs0 Hne. exists pc. simpl. rewrite Hs0, lookup_insert_ne by done. auto. }
  assert (∀ pc0 s0, unit_list pc0 = Some prompts ∨ unit_list pc0 = None →
            ∃ pc', runners (suspend k pc0 s0) !! k = Some pc' ∧
                   (unit_list pc' = Some prompts ∨ unit_list pc' = None)) as Hown.
  { intros pc0 s0 H0. exists pc0. simpl. by rewrite lookup_insert_eq. }
  assert (∀ j pc0 s0, runners s0 = runners s →
            (j = k → unit_list pc0 = Some prompts ∨ unit_list pc0 = None) →
            ∃ pc', runners (suspend j pc0 s0) !! k = Some pc' ∧
                   (unit_list pc' = Some prompts ∨ unit_list pc' = None)) as Hsusp.
  { intros j pc0 s0 Hs0 Hj. destruct (decide (j = k)) as [->|Hne]; auto. }
  assert (∀ j err s0, runners s0 = runners s →
            ∃ pc', runners (runJob_catch j err s0) !! k = Some pc' ∧
                   (unit_list pc' = Some prompts ∨ unit_list pc' = None)) as Hcatch.
  { intros j err s0 Hs0. unfold runJob_catch. apply Hsusp; [by shape|]. by right. }
  clear Hother Hown.
  destruct e as [j body|j|j r|j cur tot st|j r|j r|i fr|ms|d| |i rs]; simpl in Hstep.
  - destruct (decide _) as [[_ Hr]|]; [|done]. injection Hstep as <-.
    assert (j ≠ k) as Hne by congruence.
    unfold post_run, runJob_start, createJob. simpl. rewrite lookup_insert_eq.
    destruct body as [[|p ps]|]; unfold runJob_resolved;
      (apply Hsusp; [by shape|done]).
  - destruct (runners s !! j) as [[|file rest ps| |ps| | |]|] eqn:Hj; try done;
      injection Hstep as <-.
    + unfold runJob_readdir.
      destruct (fs.readdir _ _) as [err|files]; [|destruct (map _ _)]; auto.
    + unfold runJob_readFile, runJob_resolved.
      destruct (fs.readFile _ _) as [err|c]; [|destruct rest]; auto.
      apply Hsusp; [by shape|]. intros ->. rewrite Hj in Hpc. by injection Hpc as <-.
    + unfold runJob_ensureDir.
      destruct (fs.ensureDir _ _); (apply Hsusp; [done|]); intros ->;
        rewrite Hj in Hpc; injection Hpc as <-; auto.
  - destruct (runners s !! j) as [[| | ps| | | |]|] eqn:Hj; try done.
    injection Hstep as <-. unfold runJob_init. destruct r; auto.
    apply Hsusp; [done|]. intros ->. rewrite Hj in Hpc. injection Hpc as <-. auto.
  - destruct (runners s !! j) as [[| | | |ps n| |]|] eqn:Hj; try done.
    destruct (decide _); [|done]. injection Hstep as <-.
    apply Hsusp; [unfold onProgress; by shape|].
    intros ->. rewrite Hj in Hpc. injection Hpc as <-. auto.
  - destruct (runners s !! j) as [[| | | |ps n| |]|] eqn:Hj; try done.
    destruct r as [err|rs]; [|destruct (decide _); [|done]]; injection Hstep as <-;
      unfold runJob_worker; (apply Hsusp; [by shape|]); by right.
  - destruct (runners s !! j) as [[| | | | |rethrow|]|] eqn:Hj; try done.
    injection Hstep as <-. unfold runJob_cleanup.
    destruct r, rethrow; auto.
  - destruct (timers s !! i); [|done]. destruct (decide _); [|done].
    injection Hstep as <-. destruct fr; simpl; eauto.
  - injection Hstep as <-. simpl. eauto.
  - injection Hstep as <-. simpl. eauto.
  - injection Hstep as <-. simpl. eauto.
  - injection Hstep as <-. simpl. eauto.
Qed.

(** C7. POST /api/run with a non-empty [prompts] list makes exactly
    that list, unchanged and in order, the unit list of the job (and
    [total] its length); with [prompts] absent or empty the runner turns
    to the default source: it reads the prompts folder, and the unit
    list is the trimmed content of each of its .txt files, in the order
    in which [readdir] names them. *)
Theorem unit_list_custom_or_default
    (s : Server) (jobId : string) (body : option (list string)) :
  jobs s !! jobId = None →
  runners s !! jobId = None →
  ∃ s1, step (PostRun jobId body) s = Some s1 ∧
    match body with
    | Some (p :: ps) =>
        runners s1 !! jobId = Some (AtInit (p :: ps)) ∧
        total <$> jobs s1 !! jobId = Some (Z.of_nat (length (p :: ps)))
    | _ =>
        runners s1 !! jobId = Some AtReaddir ∧
        ∀ files cs,
          fs.readdir (disk s) (promptsDir s) = inr files →
          promptFiles s files ≠ [] →
          contents (disk s) (promptFiles s files) = Some cs →
          ∃ s2, run (replicate (S (length (promptFiles s files))) (FsSettled jobId)) s1
                  = Some s2 ∧
                runners s2 !! jobId = Some (AtInit (map trim cs)) ∧
                total <$> jobs s2 !! jobId = Some (Z.of_nat (length cs))
    end.
Proof.
  intros Hj Hr. exists (post_run jobId body s).1. split.
  { simpl. by rewrite decide_True. }
  assert (∀ b, b = None ∨ b = Some [] →
    let s1 := (post_run jobId b s).1 in
    runners s1 !! jobId = Some AtReaddir ∧
    ∀ files cs,
      fs.readdir (disk s) (promptsDir s) = inr files →
      promptFiles s files ≠ [] →
      contents (disk s) (promptFiles s files) = Some cs →
      ∃ s2, run (replicate (S (length (promptFiles s files))) (FsSettled jobId)) s1
              = Some s2 ∧
            runners s2 !! jobId = Some (AtInit (map trim cs)) ∧
            total <$> jobs s2 !! jobId = Some (Z.of_nat (length cs))) as Hdefault.
  { intros b Hb s1.
    destruct (post_run_default s jobId b Hj Hb) as (Hr1 & Hj1 & Hd1 & Hw1 & _).
    fold s1 in Hr1, Hj1, Hd1, Hw1.
    assert (runners s1 !! jobId = Some AtReaddir) as Hpc
      by (rewrite Hr1; apply lookup_insert_eq).
    split; [done|]. intros files cs Hdir Hne Hcs.
    destruct (promptFiles s files) as [|file rest] eqn:Hfiles; [done|].
    set (s1' := suspend jobId (AtReadFile file rest []) s1).
    destruct (read_loop jobId rest file [] s1' cs) as (s2 & Hrun & Hr2 & Hj2).
    { apply lookup_insert_eq. }
    { simpl. by rewrite Hd1. }
    exists s2. split_and!.
    - change (replicate (S (length (file :: rest))) (FsSettled jobId))
        with (FsSettled jobId :: replicate (S (length rest)) (FsSettled jobId)).
      simpl. rewrite Hpc. unfold promptsDir. rewrite Hd1, Hw1. fold (promptsDir s).
      rewrite Hdir. unfold runJob_readdir, promptsDir. rewrite Hw1.
      fold (promptsDir s). fold (promptFiles s files). rewrite Hfiles. exact Hrun.
    - rewrite Hr2. simpl. apply lookup_insert_eq.
    - rewrite Hj2. simpl. rewrite Hj1, alter_insert_eq, lookup_insert_eq. simpl.
      by rewrite length_map. }
  destruct body as [[|p ps]|].
  - apply Hdefault. by right.
  - destruct (post_run_custom s jobId p ps Hj) as (Hr1 & Hj1 & _).
    rewrite Hr1, Hj1, !lookup_insert_eq. done.
  - apply Hdefault. by left.
Qed.

Lemma unit_list_custom_or_default_witness :
  (∃ s1, step (PostRun "j1" (Some ["Explain A"; " explain B "])) fresh_server = Some s1 ∧
     runners s1 !! "j1" = Some (AtInit ["Explain A"; " explain B "]) ∧
     total <$> jobs s1 !! "j1" = Some 2) ∧
  (∃ s1, step (PostRun "j1" (Some [])) prompts_server = Some s1 ∧
     runners s1 !! "j1" = Some AtReaddir ∧
     ∃ s2, run (replicate 3 (FsSettled "j1")) s1 = Some s2 ∧
           runners s2 !! "j1" = Some (AtInit ["Document the API"; "Write a changelog"]) ∧
           total <$> jobs s2 !! "j1" = Some 2).
Proof.
  split.
  - apply (unit_list_custom_or_default fresh_server "j1"
             (Some ["Explain A"; " explain B "])); by vm_compute.
  - destruct (unit_list_custom_or_default prompts_server "j1" (Some []))
      as (s1 & Hstep & Hpc & Hloop); [by vm_compute..|].
    exists s1. split; [exact Hstep|]. split; [exact Hpc|].
    apply (Hloop ["a.txt"; "b.txt"; "notes.md"]
                 ["  Document the API
"; "Write a changelog"]).
    + by vm_compute.
    + by vm_compute.
    + by vm_compute.
Defined.

(** *** Concurrent jobs and the worker *)

Lemma at_runJob_inv (pc : Pc) :
  at_runJob pc = true → ∃ prompts reported, pc = AtRunJob prompts reported.
Proof. destruct pc; try done. eauto. Qed.

(** C1, as the code has it. There is no permit: POST /api/run starts
    [runJob] at once, and every runner calls its own worker. What holds
    is that each [worker.runJob] call in flight belongs to a job of its
    own whose status is [running]; so there are at most as many calls in
    flight as there are running jobs. *)
Theorem in_flight_within_running_jobs (s : Server) :
  reachable s →
  dom (in_flight s) ⊆ dom (running_jobs s) ∧
  (size (in_flight s) ≤ size (running_jobs s))%nat.
Proof.
  intros Hreach. apply reachable_consistent in Hreach.
  assert (dom (in_flight s) ⊆ dom (running_jobs s)) as Hsub.
  { intros k Hk. apply elem_of_dom in Hk as [pc Hpc]. apply elem_of_dom.
    unfold in_flight in Hpc. apply map_lookup_filter_Some in Hpc as [Hpc Hat].
    simpl in Hat. apply Is_true_true in Hat.
    apply at_runJob_inv in Hat as (prompts & reported & ->).
    destruct (consistent_lookup s k _ Hreach Hpc) as (job & Hjob & Hrun & _).
    exists job. unfold running_jobs. by apply map_lookup_filter_Some. }
  split; [done|].
  rewrite <- !(size_dom (D := gset string)). by apply subseteq_size.
Qed.

Lemma in_flight_within_running_jobs_witness :
  dom (in_flight (after two_jobs_trace fresh_server))
    ⊆ dom (running_jobs (after two_jobs_trace fresh_server)) ∧
  (size (in_flight (after two_jobs_trace fresh_server))
     ≤ size (running_jobs (after two_jobs_trace fresh_server)))%nat.
Proof.
  apply (in_flight_within_running_jobs (after two_jobs_trace fresh_server)).
  apply reachable_after. by_compute.
Defined.

(** C1, as stated, fails: after two POST /api/run requests, both
    runners are inside [worker.runJob] at the same time. *)
Lemma two_worker_calls_in_flight :
  reachable (after two_jobs_trace fresh_server) ∧
  size (in_flight (after two_jobs_trace fresh_server)) = 2%nat.
Proof. split; [apply reachable_after; by_compute|by vm_compute]. Qed.

(** *** Snapshots of a job *)

(** C2, as the code has it. In every snapshot that GET /api/status can
    return, [0 <= progress <= total]. [results] is empty as long as the
    job is pending or running, whatever [progress] is: the worker's
    results are stored in one piece when the job turns [completed], and
    then their number is [progress] (and [total]). In every snapshot
    [results] is thus either empty or as long as [progress]. *)
Theorem snapshot_progress_and_results (s : Server) (jobId : string) (job : Job) :
  reachable s →
  get_status jobId s = json 200 (status_body job) →
  0 ≤ progress job ≤ total job ∧
  (status job = pending ∨ status job = running → results job = []) ∧
  (status job = completed →
   Z.of_nat (length (results job)) = progress job ∧ progress job = total job) ∧
  (results job = [] ∨ Z.of_nat (length (results job)) = progress job).
Proof.
  intros Hreach Hget. apply reachable_consistent in Hreach.
  unfold get_status, getJob in Hget.
  destruct (jobs s !! jobId) as [job'|] eqn:Hjob; [|done].
  injection Hget as ->.
  destruct (consistent_job s jobId job Hreach Hjob) as (pc & _ & Hat).
  destruct (job_at_bounds pc job Hat) as [Hb Hres].
  split; [done|]. split; [|split; [|done]].
  - intros Hst. destruct pc as [| | | | |[e|]|]; simpl in Hat;
      try (by destruct Hat as (? & ? & ? & ?));
      try (by destruct Hat as (? & ? & ?)).
    + by destruct Hat as (? & ? & ? & ? & ?).
    + destruct Hat as (Hc & _). rewrite Hc in Hst. by destruct Hst.
    + destruct Hat as [(Hc & _)|(Hc & _)]; rewrite Hc in Hst; by destruct Hst.
  - intros Hst. destruct pc as [| | | | |[e|]|]; simpl in Hat;
      try (destruct Hat as (Hc & _); congruence).
    + by destruct Hat as (_ & _ & ? & ?).
    + destruct Hat as [(Hc & _)|(_ & _ & ? & ?)]; [congruence|done].
Qed.

Lemma snapshot_progress_and_results_witness :
  ∃ job, get_status "j1" (after progress_trace fresh_server) = json 200 (status_body job) ∧
    0 ≤ progress job ≤ total job ∧
    (status job = pending ∨ status job = running → results job = []) ∧
    (status job = completed →
     Z.of_nat (length (results job)) = progress job ∧ progress job = total job) ∧
    (results job = [] ∨ Z.of_nat (length (results job)) = progress job).
Proof.
  eexists. split; [by vm_compute|].
  apply (snapshot_progress_and_results (after progress_trace fresh_server) "j1").
  - apply reachable_after. by_compute.
  - by vm_compute.
Defined.

(** C2, as stated, fails: once the worker has reported its first unit,
    the snapshot shows [progress = 1] with [results] still empty. *)
Lemma progress_ahead_of_results :
  reachable (after progress_trace fresh_server) ∧
  ∃ job, get_status "j1" (after progress_trace fresh_server) = json 200 (status_body job) ∧
         status job = running ∧ progress job = 1 ∧ results job = [] ∧
         Z.of_nat (length (results job)) ≠ progress job.
Proof.
  split; [apply reachable_after; by_compute|].
  eexists. split; [by vm_compute|]. by vm_compute.
Qed.

(** *** The life of a job *)

(** An event leaves the records of all jobs but its own alone. *)
Lemma step_frame (e : Event) (s s' : Server) (k : string) :
  step e s = Some s' → subject e ≠ Some k → jobs s' !! k = jobs s !! k.
Proof.
  intros Hstep Hk.
  destruct e as [j body|j|j r|j cur tot st|j r|j r|i fr|ms|d| |i rs]; simpl in Hstep, Hk.
  - destruct (decide _) as [[Hj Hr]|]; [|done]. injection Hstep as <-.
    unfold post_run, runJob_start, createJob. simpl. rewrite lookup_insert_eq.
    destruct body as [[|p ps]|]; unfold runJob_resolved; shape;
      rewrite ?lookup_alter_ne, ?lookup_insert_ne by congruence; done.
  - destruct (runners s !! j) as [[|file rest prompts| |prompts| | |]|]; try done;
      injection Hstep as <-.
    + unfold runJob_readdir, runJob_catch.
      destruct (fs.readdir _ _) as [e|files]; [|destruct (map _ _)]; shape;
        rewrite ?lookup_alter_ne by congruence; done.
    + unfold runJob_readFile, runJob_catch, runJob_resolved.
      destruct (fs.readFile _ _) as [e|c]; [|destruct rest]; shape;
        rewrite ?lookup_alter_ne by congruence; done.
    + unfold runJob_ensureDir. by destruct (fs.ensureDir _ _).
  - destruct (runners s !! j) as [[| | prompts| | | |]|]; try done.
    injection Hstep as <-. unfold runJob_init, runJob_catch.
    destruct r; shape; rewrite ?lookup_alter_ne by congruence; done.
  - destruct (runners s !! j) as [[| | | |prompts n| |]|]; try done.
    destruct (decide _); [|done]. injection Hstep as <-.
    unfold onProgress. shape. by rewrite lookup_alter_ne by congruence.
  - destruct (runners s !! j) as [[| | | |prompts n| |]|]; try done.
    destruct r as [e|rs]; [|destruct (decide _); [|done]]; injection Hstep as <-;
      unfold runJob_worker; shape; rewrite ?lookup_alter_ne by congruence; done.
  - destruct (runners s !! j) as [[| | | | |rethrow|]|]; try done.
    injection Hstep as <-. unfold runJob_cleanup, runJob_catch.
    destruct r, rethrow; shape; rewrite ?lookup_alter_ne by congruence; done.
  - destruct (timers s !! i); [|done]. destruct (decide _); [|done].
    injection Hstep as <-. by destruct fr.
  - by injection Hstep as <-.
  - by injection Hstep as <-.
  - by injection Hstep as <-.
  - by injection Hstep as <-.
Qed.

Lemma status_of_catch (s : Server) (k : string) (e : Thrown) (job : Job) :
  jobs s !! k = Some job →
  status_of (runJob_catch k e s) k = Some failed ∧
  timers (runJob_catch k e s) = timers s.
Proof.
  intros Hjob. unfold status_of, runJob_catch. shape.
  rewrite lookup_alter_eq, Hjob. by destruct job.
Qed.

(** How one event changes the status of job [k] and the pending timers:
    not at all; or the job is created and at once [running]; or it goes
    from [running] to [failed], or from [running] to [completed] (the
    one case in which a timer is armed); or, when [worker.cleanup()]
    rejects after completion, from [completed] to [failed]. *)
Lemma step_status (e : Event) (s s' : Server) (k : string) :
  consistent s → step e s = Some s' →
  status_of s' k = status_of s k ∨
  (status_of s k = None ∧ status_of s' k = Some running ∧ timers s' = timers s) ∨
  (status_of s k = Some running ∧ status_of s' k = Some failed ∧ timers s' = timers s) ∨
  (status_of s k = Some completed ∧ status_of s' k = Some failed ∧
   timers s' = timers s ∧ ∃ err, e = CleanupSettled k (Some err)) ∨
  (status_of s k = Some running ∧ status_of s' k = Some completed ∧
   timers s' = timers s ++ [{| due := (clock s + 3600000)%N; dir := jobOutputDir s k |}]).
Proof.
  intros Hc Hstep.
  destruct (decide (subject e = Some k)) as [Hk|Hk];
    [|left; unfold status_of; by rewrite (step_frame e s s' k)].
  destruct e as [j body|j|j r|j cur tot st|j r|j r|i fr|ms|d| |i rs];
    simpl in Hk; try done; injection Hk as ->; simpl in Hstep.
  { (* POST /api/run *)
    destruct (decide _) as [[Hj Hr]|]; [|done]. injection Hstep as <-.
    right. left. unfold status_of. rewrite Hj.
    unfold post_run, runJob_start, createJob. simpl. rewrite lookup_insert_eq.
    destruct body as [[|p ps]|]; unfold runJob_resolved; shape;
      rewrite ?alter_insert_eq, lookup_insert_eq; done. }
  (* the other events resume the runner of [k], suspended at [pc] *)
  all: destruct (runners s !! k) as [pc|] eqn:Hpc; [|done].
  all: destruct (consistent_lookup s k pc Hc Hpc) as (job & Hjob & Hat).
  all: assert (status_of s k = Some (status job)) as Hst
         by (unfold status_of; by rewrite Hjob).
  all: pose proof (status_of_catch s k) as Hcatch.
  - destruct pc as [|file rest prompts| |prompts| | |]; try done;
      injection Hstep as <-; destruct Hat as (Hrun & _); rewrite Hrun in Hst.
    + unfold runJob_readdir.
      destruct (fs.readdir _ _) as [e|files]; [|destruct (map _ _)].
      * right; right; left. split; [done|]. by eapply Hcatch.
      * right; right; left. split; [done|]. by eapply Hcatch.
      * by left.
    + unfold runJob_readFile. destruct (fs.readFile _ _) as [e|c].
      * right; right; left. split; [done|]. by eapply Hcatch.
      * left. rewrite Hst. unfold status_of.
        destruct rest; unfold runJob_resolved; shape.
        -- rewrite lookup_alter_eq, Hjob. destruct job; simpl in *. by rewrite Hrun.
        -- rewrite Hjob. simpl. by rewrite Hrun.
    + left. rewrite Hst. unfold runJob_ensureDir, status_of.
      destruct (fs.ensureDir _ _); shape; rewrite Hjob; simpl; by rewrite Hrun.
  - destruct pc as [| | prompts| | | |]; try done. injection Hstep as <-.
    destruct Hat as (Hrun & _); rewrite Hrun in Hst. unfold runJob_init.
    destruct r as [e|].
    + right; right; left. split; [done|]. by eapply Hcatch.
    + by left.
  - destruct pc as [| | | |prompts n| |]; try done.
    destruct (decide _); [|done]. injection Hstep as <-.
    destruct Hat as (Hrun & _); rewrite Hrun in Hst.
    left. rewrite Hst. unfold status_of, onProgress. shape.
    rewrite lookup_alter_eq, Hjob. destruct job; simpl in *. by rewrite Hrun.
  - destruct pc as [| | | |prompts n| |]; try done.
    destruct Hat as (Hrun & _); rewrite Hrun in Hst.
    destruct r as [e|rs]; [|destruct (decide _); [|done]]; injection Hstep as <-.
    + by left.
    + right; right; right; right. split; [done|].
      unfold status_of, runJob_worker, jobOutputDir. shape.
      rewrite lookup_alter_eq, Hjob. by destruct job.
  - destruct pc as [| | | | |rethrow|]; try done. injection Hstep as <-.
    unfold runJob_cleanup. destruct rethrow as [e0|]; destruct Hat as (Hrun & _);
      rewrite Hrun in Hst.
    + right; right; left. split; [done|]. destruct r; by eapply Hcatch.
    + destruct r as [err|].
      * right; right; right; left. split; [done|].
        destruct (Hcatch err job Hjob) as [? ?]. eauto.
      * by left.
Qed.

(** A job that is [failed] keeps its record for good, and a [completed]
    one keeps it unless [worker.cleanup()] rejects. *)
Lemma terminal_record_kept (e : Event) (s s' : Server) (k : string) (job : Job) :
  consistent s → step e s = Some s' →
  jobs s !! k = Some job →
  status job = failed ∨ status job = completed →
  jobs s' !! k = Some job ∨
  (status job = completed ∧ ∃ err, e = CleanupSettled k (Some err)).
Proof.
  intros Hc Hstep Hjob Hterm.
  destruct (decide (subject e = Some k)) as [Hk|Hk];
    [|left; by rewrite (step_frame e s s' k)].
  assert (∀ pc, runners s !! k = Some pc → pc = AtCleanup None ∨ pc = Returned) as Hpcs.
  { intros pc Hpc. destruct (consistent_lookup s k pc Hc Hpc) as (job' & Hjob' & Hat).
    assert (job' = job) as -> by congruence.
    destruct pc as [| | | | |[e0|]|]; simpl in Hat; auto;
      destruct Hat as (Hrun & _); rewrite Hrun in Hterm; by destruct Hterm. }
  destruct e as [j body|j|j r|j cur tot st|j r|j r|i fr|ms|d| |i rs];
    simpl in Hk; try done; injection Hk as ->; simpl in Hstep.
  { destruct (decide _) as [[Hj _]|]; [|done]. congruence. }
  all: destruct (runners s !! k) as [pc|] eqn:Hpc; [|done].
  all: destruct (Hpcs pc eq_refl) as [-> | ->]; try done.
  injection Hstep as <-. unfold runJob_cleanup. destruct r as [err|].
  - right. destruct (consistent_lookup s k _ Hc Hpc) as (job' & Hjob' & Hat).
    assert (job' = job) as -> by congruence. destruct Hat as (? & _). eauto.
  - by left.
Qed.

(** C3: the slip. A job that completed is rewritten when
    [worker.cleanup()] rejects in the [finally]: the rejection reaches
    the [catch] of [runJob], which sets the job to [failed] and
    overwrites [currentTask], [completedAt] and [error]. *)
Theorem completed_job_rewritten_when_cleanup_rejects :
  reachable (after cleanup_rejects_trace fresh_server) ∧
  getJob "j1" (after completed_trace fresh_server) =
    Some {| id := "j1"; status := completed; progress := 1; total := 1;
            currentTask := "Completed successfully"; results := [sample_result];
            createdAt := 1000%N; completedAt := Some 1000%N; error := None |} ∧
  getJob "j1" (after cleanup_rejects_trace fresh_server) =
    Some {| id := "j1"; status := failed; progress := 1; total := 1;
            currentTask := "Failed"; results := [sample_result];
            createdAt := 1000%N; completedAt := Some 1005%N;
            error := Some "Target closed" |}.
Proof.
  split; [apply reachable_after; by_compute|]. split; by vm_compute.
Qed.

(** *** Retention *)

(** X20. A cleanup timer that is due fires, whatever the disk holds,
    and firing cannot fail the server: the timer leaves the pending ones
    (the others stay, in their order), and no job, runner or client is
    touched, whether [fs.remove] resolves or rejects (the callback
    catches and logs). When [fs.remove] resolves, nothing is left at or
    below the directory, and if nothing was there the disk is as before. *)
Theorem due_timer_fires_once (s : Server) (i : nat) (t : Timer) (r : option Thrown) :
  timers s !! i = Some t → (due t ≤ clock s)%N →
  ∃ s2, step (TimerFired i r) s = Some s2 ∧
        timers s2 = delete i (timers s) ∧ jobs s2 = jobs s ∧
        runners s2 = runners s ∧ clients s2 = clients s ∧
        (r = None →
         (∀ p, dir t `prefix_of` p → disk s2 !! p = None) ∧
         ((∀ p, dir t `prefix_of` p → disk s !! p = None) → disk s2 = disk s)).
Proof.
  intros Ht Hdue. eexists. simpl. rewrite Ht, decide_True by done.
  split; [done|]. split_and!; [by destruct r..|].
  intros ->. simpl. split.
  - intros p Hp. by apply remove_lookup_below.
  - intros Hmiss. by apply remove_missing.
Qed.

Lemma due_timer_fires_once_witness :
  (∃ s2, step (TimerFired 0 None) (after (completed_trace ++ [Tick 3600000]) fresh_server)
           = Some s2 ∧
         timers s2 = [] ∧ disk s2 !! ["app"; "outputs"; "j1"] = None) ∧
  (∃ s2, step (TimerFired 0 (Some (ErrorObj "EACCES: permission denied")))
              (after (completed_trace ++ [Tick 3600000]) fresh_server) = Some s2 ∧
         timers s2 = []).
Proof.
  split.
  - destruct (due_timer_fires_once
                (after (completed_trace ++ [Tick 3600000]) fresh_server) 0
                {| due := 3601000%N; dir := ["app"; "outputs"; "j1"] |} None)
      as (s2 & Hstep & Ht & _ & _ & _ & Hgone).
    + vm_compute. reflexivity.
    + vm_compute. discriminate.
    + exists s2. split; [exact Hstep|]. split; [exact Ht|].
      destruct (Hgone eq_refl) as [Hbelow _]. by apply Hbelow.
  - destruct (due_timer_fires_once
                (after (completed_trace ++ [Tick 3600000]) fresh_server) 0
                {| due := 3601000%N; dir := ["app"; "outputs"; "j1"] |}
                (Some (ErrorObj "EACCES: permission denied")))
      as (s2 & Hstep & Ht & _).
    + vm_compute. reflexivity.
    + vm_compute. discriminate.
    + exists s2. split; [exact Hstep|exact Ht].
Defined.

(** C5: the slip. The completed exit of [runJob] arms the auto-cleanup
    of the job's output directory ([setTimeout], one hour); the failed
    exit arms nothing. A job that fails after [fs.ensureDir] made its
    directory ends [failed] with the directory on the disk and no timer
    pending; an hour later there is still no timer that could fire, and
    the directory is still there. *)
Theorem failed_job_output_directory_is_never_cleaned :
  let done := after completed_trace fresh_server in
  let lost := after worker_rejects_trace fresh_server in
  let later := after (worker_rejects_trace ++ [Tick 3600000]) fresh_server in
  reachable done ∧ reachable lost ∧ reachable later ∧
  status_of done "j1" = Some completed ∧
  timers done = [{| due := 3601000%N; dir := ["app"; "outputs"; "j1"] |}] ∧
  status_of lost "j1" = Some failed ∧
  fs.pathExists (disk lost) (jobOutputDir lost "j1") = true ∧
  timers lost = [] ∧
  (∀ i r, step (TimerFired i r) later = None) ∧
  fs.pathExists (disk later) (jobOutputDir later "j1") = true.
Proof.
  intros done lost later.
  split_and!; try (apply reachable_after; by_compute); try (vm_compute; reflexivity).
Qed.

(** *** Every write to a record *)

Lemma step_cwd (e : Event) (s s' : Server) : step e s = Some s' → cwd s' = cwd s.
Proof.
  intros Hstep.
  destruct e as [j body|j|j r|j cur tot st|j r|j r|i fr|ms|d| |i rs]; simpl in Hstep.
  - destruct (decide _); [|done]. injection Hstep as <-.
    unfold post_run, runJob_start, createJob. simpl. rewrite lookup_insert_eq.
    destruct body as [[|p ps]|]; unfold runJob_resolved; by shape.
  - destruct (runners s !! j) as [[|file rest prompts| |prompts| | |]|]; try done;
      injection Hstep as <-.
    + unfold runJob_readdir, runJob_catch.
      destruct (fs.readdir _ _); [|destruct (map _ _)]; by shape.
    + unfold runJob_readFile, runJob_catch, runJob_resolved.
      destruct (fs.readFile _ _); [|destruct rest]; by shape.
    + unfold runJob_ensureDir. by destruct (fs.ensureDir _ _).
  - destruct (runners s !! j) as [[| | prompts| | | |]|]; try done.
    injection Hstep as <-. unfold runJob_init, runJob_catch. destruct r; by shape.
  - destruct (runners s !! j) as [[| | | |prompts n| |]|]; try done.
    destruct (decide _); [|done]. injection Hstep as <-. unfold onProgress. by shape.
  - destruct (runners s !! j) as [[| | | |prompts n| |]|]; try done.
    destruct r as [e|rs]; [|destruct (decide _); [|done]]; injection Hstep as <-;
      unfold runJob_worker; by shape.
  - destruct (runners s !! j) as [[| | | | |rethrow|]|]; try done.
    injection Hstep as <-. unfold runJob_cleanup, runJob_catch.
    destruct r, rethrow; by shape.
  - destruct (timers s !! i); [|done]. destruct (decide _); [|done].
    injection Hstep as <-. by destruct fr.
  - by injection Hstep as <-.
  - by injection Hstep as <-.
  - by injection Hstep as <-.
  - by injection Hstep as <-.
Qed.

(** Time does not run backwards. *)
Lemma step_clock (e : Event) (s s' : Server) :
  step e s = Some s' → (clock s ≤ clock s')%N.
Proof.
  intros Hstep.
  destruct e as [j body|j|j r|j cur tot st|j r|j r|i fr|ms|d| |i rs]; simpl in Hstep.
  - destruct (decide _); [|done]. injection Hstep as <-.
    unfold post_run, runJob_start, createJob. simpl. rewrite lookup_insert_eq.
    destruct body as [[|p ps]|]; unfold runJob_resolved; by shape.
  - destruct (runners s !! j) as [[|file rest prompts| |prompts| | |]|]; try done;
      injection Hstep as <-.
    + unfold runJob_readdir, runJob_catch.
      destruct (fs.readdir _ _); [|destruct (map _ _)]; by shape.
    + unfold runJob_readFile, runJob_catch, runJob_resolved.
      destruct (fs.readFile _ _); [|destruct rest]; by shape.
    + unfold runJob_ensureDir. by destruct (fs.ensureDir _ _).
  - destruct (runners s !! j) as [[| | prompts| | | |]|]; try done.
    injection Hstep as <-. unfold runJob_init, runJob_catch. destruct r; by shape.
  - destruct (runners s !! j) as [[| | | |prompts n| |]|]; try done.
    destruct (decide _); [|done]. injection Hstep as <-. unfold onProgress. by shape.
  - destruct (runners s !! j) as [[| | | |prompts n| |]|]; try done.
    destruct r as [e|rs]; [|destruct (decide _); [|done]]; injection Hstep as <-;
      unfold runJob_worker; by shape.
  - destruct (runners s !! j) as [[| | | | |rethrow|]|]; try done.
    injection Hstep as <-. unfold runJob_cleanup, runJob_catch.
    destruct r, rethrow; by shape.
  - destruct (timers s !! i); [|done]. destruct (decide _); [|done].
    injection Hstep as <-. by destruct fr.
  - injection Hstep as <-. simpl. lia.
  - by injection Hstep as <-.
  - by injection Hstep as <-.
  - by injection Hstep as <-.
Qed.

(** A job enters the table through POST /api/run only, and is [running]
    with empty results as soon as the handler is done. *)
Lemma step_create (e : Event) (s s' : Server) (k : string) :
  step e s = Some s' → jobs s !! k = None →
  jobs s' !! k = None ∨
  ∃ n task,
    jobs s' !! k = Some {| id := k; status := running; progress := 0; total := n;
                           currentTask := task; results := []; createdAt := clock s;
                           completedAt := None; error := None |}.
Proof.
  intros Hstep Hk.
  destruct (decide (subject e = Some k)) as [He|He];
    [|left; by rewrite (step_frame e s s' k)].
  destruct e as [j body|j|j r|j cur tot st|j r|j r|i fr|ms|d| |i rs];
    simpl in He; try done; injection He as ->; simpl in Hstep.
  { destruct (decide _); [|done]. injection Hstep as <-. right.
    unfold post_run, runJob_start, createJob. simpl. rewrite lookup_insert_eq.
    destruct body as [[|p ps]|]; unfold runJob_resolved; shape;
      rewrite ?alter_insert_eq, lookup_insert_eq; eauto. }
  all: left.
  - destruct (runners s !! k) as [[|file rest prompts| |prompts| | |]|]; try done;
      injection Hstep as <-.
    + unfold runJob_readdir, runJob_catch.
      destruct (fs.readdir _ _); [|destruct (map _ _)]; shape;
        rewrite ?lookup_alter_eq, Hk; done.
    + unfold runJob_readFile, runJob_catch, runJob_resolved.
      destruct (fs.readFile _ _); [|destruct rest]; shape;
        rewrite ?lookup_alter_eq, Hk; done.
    + unfold runJob_ensureDir. by destruct (fs.ensureDir _ _).
  - destruct (runners s !! k) as [[| | prompts| | | |]|]; try done.
    injection Hstep as <-. unfold runJob_init, runJob_catch.
    destruct r; shape; rewrite ?lookup_alter_eq, Hk; done.
  - destruct (runners s !! k) as [[| | | |prompts n| |]|]; try done.
    destruct (decide _); [|done]. injection Hstep as <-. unfold onProgress. shape.
    by rewrite lookup_alter_eq, Hk.
  - destruct (runners s !! k) as [[| | | |prompts n| |]|]; try done.
    destruct r as [e|rs]; [|destruct (decide _); [|done]]; injection Hstep as <-;
      unfold runJob_worker; shape; rewrite ?lookup_alter_eq, Hk; done.
  - destruct (runners s !! k) as [[| | | | |rethrow|]|]; try done.
    injection Hstep as <-. unfold runJob_cleanup, runJob_catch.
    destruct r, rethrow; shape; rewrite ?lookup_alter_eq, Hk; done.
Qed.

(** After its creation a job's record is written by four object literals
    only, each in a known status; no event removes a record. *)
Lemma step_write (e : Event) (s s' : Server) (k : string) (job : Job) :
  consistent s → step e s = Some s' → jobs s !! k = Some job →
  ∃ updates, jobs s' !! k = Some (assign job updates) ∧
             runJob_write (clock s) (status job) updates.
Proof.
  intros Hc Hstep Hjob.
  destruct (decide (subject e = Some k)) as [He|He].
  2: { exists []. split; [by rewrite (step_frame e s s' k)|by left]. }
  destruct e as [j body|j|j r|j cur tot st|j r|j r|i fr|ms|d| |i rs];
    simpl in He; try done; injection He as ->; simpl in Hstep.
  { destruct (decide _) as [[Hj _]|]; [|done]. congruence. }
  all: destruct (runners s !! k) as [pc|] eqn:Hpc; [|done].
  all: destruct (consistent_lookup s k pc Hc Hpc) as (job' & Hjob' & Hat).
  all: assert (job' = job) as -> by congruence; clear Hjob'.
  all: assert (∀ err, ∃ updates,
         jobs (runJob_catch k err s) !! k = Some (assign job updates) ∧
         (status job = running ∨ status job = completed →
          runJob_write (clock s) (status job) updates)) as Hcatch
    by (intros err; eexists; split;
        [unfold runJob_catch; shape; by rewrite lookup_alter_eq, Hjob
        |intros Hst; do 4 right; eauto]).
  all: assert (∃ updates, jobs s !! k = Some (assign job updates) ∧
                          runJob_write (clock s) (status job) updates) as Hnone
    by (exists []; split; [done|by left]).
  - destruct pc as [|file rest prompts| |prompts| | |]; try done;
      injection Hstep as <-; destruct Hat as (Hrun & _).
    + unfold runJob_readdir.
      destruct (fs.readdir _ _) as [err|files]; [|destruct (map _ _)]; [| |done].
      * destruct (Hcatch err) as (us & ? & Hw). exists us. auto.
      * destruct (Hcatch (ErrorObj "No .txt files found in prompts folder"))
          as (us & ? & Hw). exists us. auto.
    + unfold runJob_readFile.
      destruct (fs.readFile _ _) as [err|c]; [|destruct rest]; [| |done].
      * destruct (Hcatch err) as (us & ? & Hw). exists us. auto.
      * eexists. split.
        -- unfold runJob_resolved. shape. by rewrite lookup_alter_eq, Hjob.
        -- right; left. eauto.
    + unfold runJob_ensureDir. by destruct (fs.ensureDir _ _).
  - destruct pc as [| | prompts| | | |]; try done. injection Hstep as <-.
    destruct Hat as (Hrun & _). unfold runJob_init. destruct r as [err|]; [|done].
    destruct (Hcatch err) as (us & ? & Hw). exists us. auto.
  - destruct pc as [| | | |prompts n| |]; try done.
    destruct (decide _); [|done]. injection Hstep as <-. destruct Hat as (Hrun & _).
    eexists. split.
    + unfold onProgress. shape. by rewrite lookup_alter_eq, Hjob.
    + right; right; left. eauto 10.
  - destruct pc as [| | | |prompts n| |]; try done. destruct Hat as (Hrun & _).
    destruct r as [err|rs]; [|destruct (decide _); [|done]]; injection Hstep as <-;
      [done|].
    eexists. split.
    + unfold runJob_worker. shape. by rewrite lookup_alter_eq, Hjob.
    + right; right; right; left. eauto 10.
  - destruct pc as [| | | | |rethrow|]; try done. injection Hstep as <-.
    unfold runJob_cleanup.
    destruct rethrow as [e0|]; destruct Hat as (Hrun & _).
    + destruct r as [err|].
      * destruct (Hcatch err) as (us & ? & Hw). exists us. auto.
      * destruct (Hcatch e0) as (us & ? & Hw). exists us. auto.
    + destruct r as [err|]; [|done].
      destruct (Hcatch err) as (us & ? & Hw). exists us. auto.
Qed.

Lemma runJob_write_identity (now : Date) (job : Job) (updates : list Field) :
  runJob_write now (status job) updates →
  id (assign job updates) = id job ∧ createdAt (assign job updates) = createdAt job.
Proof.
  intros [->|[(_ & n & ->)|[(_ & c & n & task & ->)|[(_ & n & rs & ->)|(_ & m & ->)]]]];
    by destruct job.
Qed.

Lemma kept_write (now now' : Date) (k : string) (job : Job) (updates : list Field) :
  kept now k job → (now ≤ now')%N →
  runJob_write now (status job) updates →
  kept now' k (assign job updates).
Proof.
  intros (Hid & Hca & Hst) Hle Hw. unfold kept in *.
  destruct Hw as [->|[(Hs & n & ->)|[(Hs & c & n & task & ->)|[(Hs & n & rs & ->)
                 |(Hs & m & ->)]]]];
    destruct job as [i st p t c0 r ca co er]; simpl in *; subst.
  - split; [done|]. split; [lia|].
    destruct st; try done;
      destruct Hst as [(t0 & ? & ?) ?]; (split; [exists t0; split; [done|lia]|done]).
  - split; [done|]. split; [lia|done].
  - split; [done|]. split; [lia|done].
  - split; [done|]. split; [lia|]. split; [|by destruct Hst].
    exists now. split; [done|lia].
  - split; [done|]. split; [lia|]. split; [|by eexists].
    exists now. split; [done|lia].
Qed.

Lemma all_kept_boot (wd : Path) (d : Disk) (t : Date) : all_kept (boot wd d t).
Proof. intros k job. simpl. by rewrite lookup_empty. Qed.

Lemma step_all_kept (e : Event) (s s' : Server) :
  consistent s → all_kept s → step e s = Some s' → all_kept s'.
Proof.
  intros Hc Hk Hstep k job' Hjob'.
  pose proof (step_clock e s s' Hstep) as Hle.
  destruct (jobs s !! k) as [job|] eqn:Hjob.
  - destruct (step_write e s s' k job Hc Hstep Hjob) as (us & Hus & Hw).
    assert (job' = assign job us) as -> by congruence.
    by apply (kept_write (clock s)); [apply Hk|..].
  - destruct (step_create e s s' k Hstep Hjob) as [Hnone|(n & task & Hnew)];
      [congruence|].
    assert (job' = {| id := k; status := running; progress := 0; total := n;
                      currentTask := task; results := []; createdAt := clock s;
                      completedAt := None; error := None |}) as -> by congruence.
    by repeat split.
Qed.

Lemma run_all_kept (es : list Event) (s s' : Server) :
  consistent s → all_kept s → run es s = Some s' → consistent s' ∧ all_kept s'.
Proof.
  revert s. induction es as [|e es IH]; intros s Hc Hk Hrun; simpl in Hrun.
  - by injection Hrun as <-.
  - destruct (step e s) as [s1|] eqn:Hstep; [|done].
    apply (IH s1); [by eapply step_consistent|by eapply step_all_kept|done].
Qed.

Lemma reachable_all_kept (s : Server) : reachable s → all_kept s.
Proof.
  intros (wd & d & t & es & Hrun).
  by apply (run_all_kept es (boot wd d t) s (consistent_boot _ _ _) (all_kept_boot _ _ _)).
Qed.

Lemma reachable_run (es : list Event) (s s' : Server) :
  reachable s → run es s = Some s' → reachable s'.
Proof.
  intros (wd & d & t & es0 & Hrun0) Hrun. exists wd, d, t, (es0 ++ es).
  revert Hrun0. generalize (boot wd d t). induction es0 as [|e es0 IH]; intros s0; simpl.
  - by intros [= ->].
  - destruct (step e s0); [apply IH|done].
Qed.

(** X1. No status query ever shows a job as [pending]: POST /api/run
    creates the job and runs [runJob] up to its first [await] in one go,
    and by then the job is [running]. *)
Theorem status_never_pending (s : Server) (k : string) (job : Job) :
  reachable s →
  get_status k s = json 200 (status_body job) →
  status job ≠ pending.
Proof.
  intros Hreach Hget. apply reachable_consistent in Hreach.
  unfold get_status, getJob in Hget.
  destruct (jobs s !! k) as [job'|] eqn:Hjob; [|done]. injection Hget as ->.
  destruct (consistent_job s k job Hreach Hjob) as (pc & _ & Hat).
  destruct pc as [| | | | |[e|]|]; simpl in Hat;
    try (destruct Hat as (-> & _); done).
  by destruct Hat as [(-> & _)|(-> & _)].
Qed.

Lemma status_never_pending_witness :
  ∃ job, get_status "j1" (after [PostRun "j1" None] fresh_server)
           = json 200 (status_body job) ∧ status job ≠ pending.
Proof.
  eexists. split; [by vm_compute|].
  apply (status_never_pending (after [PostRun "j1" None] fresh_server) "j1").
  - apply reachable_after. by_compute.
  - by vm_compute.
Defined.

Lemma run_keeps_identity (es : list Event) :
  ∀ (s s' : Server) (k : string) (job : Job),
    consistent s → run es s = Some s' → jobs s !! k = Some job →
    ∃ job', jobs s' !! k = Some job' ∧
            id job' = id job ∧ createdAt job' = createdAt job.
Proof.
  induction es as [|e es IH]; intros s s' k job Hc Hrun Hjob; simpl in Hrun.
  - injection Hrun as <-. eauto.
  - destruct (step e s) as [s1|] eqn:Hstep; [|done].
    destruct (step_write e s s1 k job Hc Hstep Hjob) as (us & Hus & Hw).
    destruct (runJob_write_identity _ _ _ Hw) as [Hid Hca].
    destruct (IH s1 s' k (assign job us)) as (job' & Hget & Hid' & Hca');
      [by eapply step_consistent|done|done|].
    exists job'. split; [done|]. split; congruence.
Qed.

(** X2. A job is never dropped from the table and its [id] and
    [createdAt] never change: whatever happens after a job exists,
    GET /api/status keeps answering 200 for it, with the [id] it is
    stored under and the [createdAt] it got at creation. *)
Theorem job_stays_queryable (es : list Event) (s s' : Server) (k : string) (job : Job) :
  reachable s →
  run es s = Some s' →
  jobs s !! k = Some job →
  id job = k ∧
  ∃ job', get_status k s' = json 200 (status_body job') ∧
          id job' = k ∧ createdAt job' = createdAt job.
Proof.
  intros Hreach Hrun Hjob.
  pose proof (reachable_all_kept s Hreach k job Hjob) as (Hid & _).
  split; [done|]. apply reachable_consistent in Hreach.
  destruct (run_keeps_identity es s s' k job Hreach Hrun Hjob) as (job' & Hj' & Hid' & Hca').
  exists job'. unfold get_status, getJob. rewrite Hj'. split; [done|]. split; congruence.
Qed.

Lemma job_stays_queryable_witness :
  ∃ job', get_status "j1" (after cleanup_rejects_trace fresh_server)
            = json 200 (status_body job') ∧
          id job' = "j1" ∧ createdAt job' = 1000%N.
Proof.
  destruct (job_stays_queryable
              (drop 1 cleanup_rejects_trace)
              (after (take 1 cleanup_rejects_trace) fresh_server)
              (after cleanup_rejects_trace fresh_server) "j1"
              {| id := "j1"; status := running; progress := 0; total := 1;
                 currentTask := "Using custom prompts..."; results := [];
                 createdAt := 1000%N; completedAt := None; error := None |})
    as (_ & job' & Hget & Hid & Hca).
  - apply reachable_after. by_compute.
  - by vm_compute.
  - by vm_compute.
  - exists job'. split; [exact Hget|]. split; [exact Hid|exact Hca].
Defined.

(** X3. [completedAt] and [error] go with the status: a running job
    has neither, a completed job has [completedAt] and no [error], a
    failed job has both. *)
Theorem completedAt_error_follow_status (s : Server) (k : string) (job : Job) :
  reachable s →
  get_status k s = json 200 (status_body job) →
  (status job = running → completedAt job = None ∧ error job = None) ∧
  (status job = completed → is_Some (completedAt job) ∧ error job = None) ∧
  (status job = failed → is_Some (completedAt job) ∧ is_Some (error job)).
Proof.
  intros Hreach Hget. unfold get_status, getJob in Hget.
  destruct (jobs s !! k) as [job'|] eqn:Hjob; [|done]. injection Hget as ->.
  destruct (reachable_all_kept s Hreach k job Hjob) as (_ & _ & Hst).
  split_and!; intros Hs; rewrite Hs in Hst; [done|..];
    destruct Hst as [(t & -> & _) ?]; eauto.
Qed.

Lemma completedAt_error_follow_status_witness :
  ∃ job, get_status "j1" (after worker_rejects_trace fresh_server)
           = json 200 (status_body job) ∧
    (status job = running → completedAt job = None ∧ error job = None) ∧
    (status job = completed → is_Some (completedAt job) ∧ error job = None) ∧
    (status job = failed → is_Some (completedAt job) ∧ is_Some (error job)).
Proof.
  eexists. split; [by vm_compute|].
  apply (completedAt_error_follow_status (after worker_rejects_trace fresh_server) "j1").
  - apply reachable_after. by_compute.
  - by vm_compute.
Defined.



(** *** Observers *)

(** X5. The WebSocket clients have no influence on the jobs: two
    servers that differ only in their clients (how many, in which state,
    with which inboxes) take the same steps, and afterwards still differ
    only in their clients. *)
Theorem observers_do_not_interfere (e : Event) (s1 s2 s1' : Server) :
  same_but_clients s1 s2 →
  step e s1 = Some s1' →
  ∃ s2', step e s2 = Some s2' ∧ same_but_clients s1' s2'.
Proof.
  destruct s1 as [J1 c1 R1 T1 D1 C1 W1], s2 as [J c2 R T D C W].
  unfold same_but_clients at 1. simpl.
  intros (-> & -> & -> & -> & -> & ->) Hstep.
  destruct e as [j body|j|j r|j cur tot st|j r|j r|i fr|ms|d| |i rs];
    simpl in Hstep |- *.
  - destruct (decide _); [|done]. injection Hstep as <-.
    eexists. split; [done|].
    unfold same_but_clients, post_run, runJob_start, createJob, runJob_resolved, updateJob.
    simpl. rewrite lookup_insert_eq. simpl.
    destruct body as [[|p ps]|]; simpl; rewrite ?lookup_insert_eq; simpl;
      rewrite ?lookup_insert_eq; done.
  - destruct (R !! j) as [[|file rest prompts| |prompts| | |]|]; try done;
      injection Hstep as <-; (eexists; split; [done|]).
    + unfold same_but_clients, runJob_readdir, runJob_catch, updateJob, promptsDir. simpl.
      destruct (fs.readdir _ _); [|destruct (map _ _)]; simpl;
        destruct (J !! j); done.
    + unfold same_but_clients, runJob_readFile, runJob_catch, runJob_resolved, updateJob.
      simpl. destruct (fs.readFile _ _); [|destruct rest]; simpl;
        destruct (J !! j); done.
    + unfold same_but_clients, runJob_ensureDir, jobOutputDir. simpl.
      by destruct (fs.ensureDir _ _).
  - destruct (R !! j) as [[| | prompts| | | |]|]; try done.
    injection Hstep as <-. eexists. split; [done|].
    unfold same_but_clients, runJob_init, runJob_catch, updateJob. simpl.
    destruct r; simpl; destruct (J !! j); done.
  - destruct (R !! j) as [[| | | |prompts n| |]|]; try done.
    destruct (decide _); [|done]. injection Hstep as <-. eexists. split; [done|].
    unfold same_but_clients, onProgress, updateJob. simpl. by destruct (J !! j).
  - destruct (R !! j) as [[| | | |prompts n| |]|]; try done.
    destruct r as [err|rs]; [|destruct (decide _); [|done]]; injection Hstep as <-;
      (eexists; split; [done|]);
      unfold same_but_clients, runJob_worker, updateJob, jobOutputDir; simpl;
      [done|by destruct (J !! j)].
  - destruct (R !! j) as [[| | | | |rethrow|]|]; try done.
    injection Hstep as <-. eexists. split; [done|].
    unfold same_but_clients, runJob_cleanup, runJob_catch, updateJob. simpl.
    destruct r, rethrow; simpl; destruct (J !! j); done.
  - destruct (T !! i); [|done]. destruct (decide _); [|done].
    injection Hstep as <-. eexists. split; [done|]. by destruct fr.
  - injection Hstep as <-. eexists. split; [done|]. done.
  - injection Hstep as <-. eexists. split; [done|]. done.
  - injection Hstep as <-. eexists. split; [done|]. done.
  - injection Hstep as <-. eexists. split; [done|]. done.
Qed.

Lemma observers_do_not_interfere_witness :
  ∃ s2', step (Progress "j1" 1 2 "Prompt 1/2 done")
              (set_clients (fun _ => []) sample_server) = Some s2' ∧
         same_but_clients
           (after [Progress "j1" 1 2 "Prompt 1/2 done"] sample_server) s2'.
Proof.
  apply (observers_do_not_interfere (Progress "j1" 1 2 "Prompt 1/2 done")
           sample_server (set_clients (fun _ => []) sample_server)).
  - repeat split.
  - vm_compute. reflexivity.
Defined.

Lemma grows_refl (cs : list Client) : grows cs cs.
Proof. apply Forall2_same_length_lookup. split; [done|]. intros i c c' H1 H2.
  assert (c = c') as -> by congruence. done. Qed.

Lemma grows_trans (cs1 cs2 cs3 : list Client) :
  grows cs1 cs2 → grows cs2 cs3 → grows cs1 cs3.
Proof.
  unfold grows. intros H12. revert cs3.
  induction H12 as [|c1 c2 cs1 cs2 [Hr Hi] _ IH]; intros cs3 H23.
  - by inversion H23.
  - inversion H23 as [|? c3 ? cs3' [Hr' Hi'] H23']; subst. constructor.
    + split; [congruence|]. by etrans.
    + by apply IH.
Qed.

Lemma broadcast_grows (m : Message) (s : Server) :
  grows (clients s) (clients (broadcast m s)).
Proof.
  simpl. induction (clients s) as [|c cs IH]; constructor; [|done].
  destruct (decide (readyState c = OPEN)); simpl; [|done].
  split; [done|]. by apply prefix_app_r.
Qed.

Lemma updateJob_grows (k : string) (updates : list Field) (s : Server) :
  grows (clients s) (clients (updateJob k updates s)).
Proof.
  unfold updateJob. destruct (jobs s !! k); [|apply grows_refl].
  apply (broadcast_grows _ (set_jobs _ s)).
Qed.

(** Closes [grows (clients s) (clients (segment s))] for a segment built
    from [updateJob], [broadcast] and projections that leave the clients. *)
Ltac grow :=
  repeat first
    [ progress cbn [clients suspend set_runners set_jobs set_timers set_disk set_clock
                    auto_clean]
    | apply grows_refl
    | (eapply grows_trans; [|apply broadcast_grows])
    | (eapply grows_trans; [|apply updateJob_grows]) ].

(** What a step does to the clients: it keeps them all, in order and in
    their state, and appends to inboxes; or a client connects; or one
    socket changes state. *)
Lemma step_clients (e : Event) (s s' : Server) :
  step e s = Some s' →
  match e with
  | WsConnect =>
      clients s' = clients s ++
        [{| readyState := OPEN;
            inbox := [connected "WebSocket connection established"] |}]
  | WsReadyState i rs =>
      clients s' = alter (fun c => {| readyState := rs; inbox := inbox c |}) i (clients s)
  | _ => grows (clients s) (clients s')
  end.
Proof.
  intros Hstep.
  destruct e as [j body|j|j r|j cur tot st|j r|j r|i fr|ms|d| |i rs]; simpl in Hstep.
  - destruct (decide _); [|done]. injection Hstep as <-.
    unfold post_run, runJob_start, createJob. simpl. rewrite lookup_insert_eq.
    destruct body as [[|p ps]|]; unfold runJob_resolved; grow.
  - destruct (runners s !! j) as [[|file rest prompts| |prompts| | |]|]; try done;
      injection Hstep as <-.
    + unfold runJob_readdir, runJob_catch.
      destruct (fs.readdir _ _); [|destruct (map _ _)]; grow.
    + unfold runJob_readFile, runJob_catch, runJob_resolved.
      destruct (fs.readFile _ _); [|destruct rest]; grow.
    + unfold runJob_ensureDir. destruct (fs.ensureDir _ _); grow.
  - destruct (runners s !! j) as [[| | prompts| | | |]|]; try done.
    injection Hstep as <-. unfold runJob_init, runJob_catch. destruct r; grow.
  - destruct (runners s !! j) as [[| | | |prompts n| |]|]; try done.
    destruct (decide _); [|done]. injection Hstep as <-. unfold onProgress. grow.
  - destruct (runners s !! j) as [[| | | |prompts n| |]|]; try done.
    destruct r as [err|rs]; [|destruct (decide _); [|done]]; injection Hstep as <-;
      unfold runJob_worker; grow.
  - destruct (runners s !! j) as [[| | | | |rethrow|]|]; try done.
    injection Hstep as <-. unfold runJob_cleanup, runJob_catch.
    destruct r, rethrow; grow.
  - destruct (timers s !! i); [|done]. destruct (decide _); [|done].
    injection Hstep as <-. destruct fr; grow.
  - injection Hstep as <-. grow.
  - injection Hstep as <-. grow.
  - by injection Hstep as <-.
  - by injection Hstep as <-.
Qed.

(** X6. What [runJob] sent stays sent: a POST /api/run, a callback
    or a settled promise of a runner leaves [wss.clients] as it is (the
    same clients, in the same state) and only appends to their inboxes;
    a message, once sent, is neither retracted nor overtaken by a later
    one. *)
Theorem inbox_only_grows (e : Event) (s s' : Server) :
  step e s = Some s' →
  is_Some (subject e) →
  length (clients s') = length (clients s) ∧
  ∀ i c, clients s !! i = Some c →
    ∃ c', clients s' !! i = Some c' ∧ readyState c' = readyState c ∧
          inbox c `prefix_of` inbox c'.
Proof.
  intros Hstep [j Hj]. pose proof (step_clients e s s' Hstep) as Hg.
  assert (grows (clients s) (clients s')) as Hgrows by (by destruct e).
  split; [symmetry; by eapply Forall2_length|].
  intros i c Hc.
  destruct (Forall2_lookup_l _ _ _ i c Hgrows Hc) as (c' & Hc' & Hrs & Hpre). eauto.
Qed.

Lemma inbox_only_grows_witness :
  ∃ s', step (FsSettled "j1") (after [WsConnect; PostRun "j1" None] fresh_server)
          = Some s' ∧
    length (clients s')
      = length (clients (after [WsConnect; PostRun "j1" None] fresh_server)) ∧
    ∀ i c, clients (after [WsConnect; PostRun "j1" None] fresh_server) !! i = Some c →
      ∃ c', clients s' !! i = Some c' ∧
            readyState c' = readyState c ∧ inbox c `prefix_of` inbox c'.
Proof.
  eexists. split; [vm_compute; reflexivity|].
  eapply (inbox_only_grows (FsSettled "j1")
            (after [WsConnect; PostRun "j1" None] fresh_server)).
  - vm_compute. reflexivity.
  - by eexists.
Defined.

Lemma step_greeted (e : Event) (s s' : Server) :
  step e s = Some s' → Forall greeted (clients s) → Forall greeted (clients s').
Proof.
  intros Hstep Hall. pose proof (step_clients e s s' Hstep) as Hg.
  assert (grows (clients s) (clients s') ∨
          clients s' = clients s ++
            [{| readyState := OPEN;
                inbox := [connected "WebSocket connection established"] |}] ∨
          ∃ i rs, clients s' =
                    alter (fun c => {| readyState := rs; inbox := inbox c |}) i (clients s))
    as [Hg'|[->|(i & rs & ->)]] by (destruct e; eauto).
  clear Hg; rename Hg' into Hg.
  - apply Forall_lookup. intros i c' Hc'.
    destruct (Forall2_lookup_r _ _ _ i c' Hg Hc') as (c & Hc & _ & [tl Hpre]).
    destruct (proj1 (Forall_lookup _ _) Hall i c Hc) as [rest Hrest].
    exists (rest ++ tl). rewrite Hpre, Hrest. done.
  - apply Forall_app. split; [done|]. constructor; [|done]. by exists [].
  - apply Forall_lookup. intros i' c' Hc'.
    destruct (decide (i = i')) as [->|Hne].
    + rewrite list_lookup_alter_eq in Hc'.
      destruct (clients s !! i') as [c|] eqn:Hc; [|done]. injection Hc' as <-.
      apply (proj1 (Forall_lookup _ _) Hall i' c Hc).
    + rewrite list_lookup_alter_ne in Hc' by done.
      apply (proj1 (Forall_lookup _ _) Hall i' c' Hc').
Qed.

(** X7. The first message every client of [wss.clients] ever
    received is the [connected] greeting that the connection handler
    sends; nothing is broadcast to a client before it. *)
Theorem connected_comes_first (s : Server) (c : Client) :
  reachable s →
  c ∈ clients s →
  ∃ rest, inbox c = connected "WebSocket connection established" :: rest.
Proof.
  intros (wd & d & t & es & Hrun) Hin.
  assert (Forall greeted (clients s)) as Hall.
  { assert (Forall greeted (clients (boot wd d t))) as H0 by constructor.
    revert H0 Hrun. generalize (boot wd d t).
    induction es as [|e es IH]; intros s0 H0 Hrun; simpl in Hrun.
    - by injection Hrun as <-.
    - destruct (step e s0) as [s1|] eqn:Hstep; [|done].
      apply (IH s1); [by eapply step_greeted|done]. }
  by apply (proj1 (Forall_forall _ _) Hall).
Qed.

Lemma connected_comes_first_witness :
  ∃ rest,
    inbox {| readyState := OPEN;
             inbox := [connected "WebSocket connection established";
                       job_update {| ju_id := "j1"; ju_status := running;
                                     ju_progress := 0; ju_total := 0;
                                     ju_currentTask := "Initializing...";
                                     ju_completedAt := None; ju_error := None |};
                       job_update {| ju_id := "j1"; ju_status := running;
                                     ju_progress := 0; ju_total := 0;
                                     ju_currentTask := "Loading demo prompts...";
                                     ju_completedAt := None; ju_error := None |}] |}
    = connected "WebSocket connection established" :: rest.
Proof.
  apply (connected_comes_first (after [WsConnect; PostRun "j1" None] fresh_server)).
  - apply reachable_after. by_compute.
  - apply list_elem_of_lookup. exists 0%nat. vm_compute. reflexivity.
Defined.

(** *** Timers and directories *)

Lemma step_timers (e : Event) (s s' : Server) :
  consistent s → step e s = Some s' →
  timers s' = timers s ∨
  (∃ i, timers s' = delete i (timers s)) ∨
  (∃ k job', timers s' = timers s ++
               [{| due := (clock s + 3600000)%N; dir := jobOutputDir s k |}] ∧
             jobs s' !! k = Some job' ∧ status job' = completed).
Proof.
  intros Hc Hstep.
  destruct e as [j body|j|j r|j cur tot st|j r|j r|i fr|ms|d| |i rs]; simpl in Hstep.
  - destruct (decide _); [|done]. injection Hstep as <-. left.
    unfold post_run, runJob_start, createJob. simpl. rewrite lookup_insert_eq.
    destruct body as [[|p ps]|]; unfold runJob_resolved; by shape.
  - destruct (runners s !! j) as [[|file rest prompts| |prompts| | |]|]; try done;
      injection Hstep as <-; left.
    + unfold runJob_readdir, runJob_catch.
      destruct (fs.readdir _ _); [|destruct (map _ _)]; by shape.
    + unfold runJob_readFile, runJob_catch, runJob_resolved.
      destruct (fs.readFile _ _); [|destruct rest]; by shape.
    + unfold runJob_ensureDir. by destruct (fs.ensureDir _ _).
  - destruct (runners s !! j) as [[| | prompts| | | |]|]; try done.
    injection Hstep as <-. left. unfold runJob_init, runJob_catch. destruct r; by shape.
  - destruct (runners s !! j) as [[| | | |prompts n| |]|]; try done.
    destruct (decide _); [|done]. injection Hstep as <-. left. unfold onProgress. by shape.
  - destruct (runners s !! j) as [[| | | |prompts n| |]|] eqn:Hpc; try done.
    destruct r as [err|rs]; [|destruct (decide _); [|done]]; injection Hstep as <-.
    + by left.
    + right. right.
      destruct (consistent_lookup s j _ Hc Hpc) as (job & Hjob & _).
      exists j, (assign job [status_ completed; progress_ (Z.of_nat (length prompts));
                             currentTask_ "Completed successfully"; results_ rs;
                             completedAt_ (clock s)]).
      unfold runJob_worker, jobOutputDir. shape.
      rewrite lookup_alter_eq, Hjob. by destruct job.
  - destruct (runners s !! j) as [[| | | | |rethrow|]|]; try done.
    injection Hstep as <-. left. unfold runJob_cleanup, runJob_catch.
    destruct r, rethrow; by shape.
  - destruct (timers s !! i); [|done]. destruct (decide _); [|done].
    injection Hstep as <-. destruct fr; right; left; by exists i.
  - injection Hstep as <-. by left.
  - injection Hstep as <-. by left.
  - injection Hstep as <-. by left.
  - injection Hstep as <-. by left.
Qed.

Lemma runJob_write_not_running (now : Date) (job : Job) (updates : list Field) :
  status job ≠ running →
  runJob_write now (status job) updates →
  status (assign job updates) ≠ running.
Proof.
  intros Hst [->|[(? & _)|[(? & _)|[(? & _)|(_ & m & ->)]]]]; try done.
  by destruct job.
Qed.

Lemma step_timers_owned (e : Event) (s s' : Server) :
  consistent s → timers_owned s → step e s = Some s' → timers_owned s'.
Proof.
  intros Hc Hown Hstep.
  assert (∀ k, jobOutputDir s' k = jobOutputDir s k) as Hdir
    by (intros k; unfold jobOutputDir; by rewrite (step_cwd e s s')).
  assert (∀ t, t ∈ timers s →
            ∃ k job, jobs s' !! k = Some job ∧ dir t = jobOutputDir s' k ∧
                     status job ≠ running) as Hold.
  { intros t Ht. destruct (Hown t Ht) as (k & job & Hjob & Hd & Hst).
    destruct (step_write e s s' k job Hc Hstep Hjob) as (us & Hus & Hw).
    exists k, (assign job us). split; [done|]. split; [by rewrite Hdir|].
    by eapply runJob_write_not_running. }
  destruct (step_timers e s s' Hc Hstep) as [Ht|[(i & Ht)|(k & job' & Ht & Hjob' & Hst')]];
    intros t Hin; rewrite Ht in Hin.
  - by apply Hold.
  - apply Hold. by eapply list_elem_of_delete_inv.
  - apply elem_of_app in Hin as [Hin|Hin]; [by apply Hold|].
    apply list_elem_of_singleton in Hin as ->. exists k, job'. simpl.
    split; [done|]. split; [by rewrite Hdir|]. by rewrite Hst'.
Qed.

(** X8. A cleanup timer is only ever pending for the output directory of
    a job that is in the table and is no longer running. *)
Theorem timers_belong_to_finished_jobs (s : Server) (t : Timer) :
  reachable s →
  t ∈ timers s →
  ∃ k job, get_status k s = json 200 (status_body job) ∧
           dir t = jobOutputDir s k ∧
           (status job = completed ∨ status job = failed).
Proof.
  intros Hreach Hin.
  assert (timers_owned s) as Hown.
  { destruct Hreach as (wd & d & t0 & es & Hrun).
    assert (timers_owned (boot wd d t0)) as H0
      by (intros t1 Ht1; by apply elem_of_nil in Ht1).
    pose proof (consistent_boot wd d t0) as Hc0.
    revert H0 Hc0 Hrun. generalize (boot wd d t0).
    induction es as [|e es IH]; intros s0 H0 Hc0 Hrun; simpl in Hrun.
    - by injection Hrun as <-.
    - destruct (step e s0) as [s1|] eqn:Hstep; [|done].
      apply (IH s1); [by eapply step_timers_owned|by eapply step_consistent|done]. }
  destruct (Hown t Hin) as (k & job & Hjob & Hd & Hst).
  exists k, job. unfold get_status, getJob. rewrite Hjob. split; [done|]. split; [done|].
  apply reachable_consistent in Hreach.
  destruct (consistent_job s k job Hreach Hjob) as (pc & _ & Hat).
  destruct pc as [| | | | |[e|]|]; simpl in Hat;
    try (destruct Hat as (? & _); done); try (destruct Hat as (? & _); by left).
  destruct Hat as [(? & _)|(? & _)]; auto.
Qed.

Lemma timers_belong_to_finished_jobs_witness :
  ∃ k job, get_status k (after completed_trace fresh_server) = json 200 (status_body job) ∧
           dir {| due := 3601000%N; dir := ["app"; "outputs"; "j1"] |}
             = jobOutputDir (after completed_trace fresh_server) k ∧
           (status job = completed ∨ status job = failed).
Proof.
  apply (timers_belong_to_finished_jobs (after completed_trace fresh_server)).
  - apply reachable_after. by_compute.
  - apply list_elem_of_lookup. exists 0%nat. vm_compute. reflexivity.
Defined.

Lemma jobOutputDir_plain (s : Server) (k : string) :
  path.plain_name k → jobOutputDir s k = removelast (cwd s) ++ ["outputs"; k].
Proof.
  intros Hk. unfold jobOutputDir.
  change ["../outputs"; k] with (["../outputs"] ++ [k]).
  rewrite resolve_plain by done.
  change (path.resolve (cwd s) ["../outputs"]) with (removelast (cwd s) ++ ["outputs"]).
  by rewrite <- app_assoc.
Qed.

(** X9. The auto-cleanup of one job does not touch what belongs to
    another: when the timer for the output directory of job [k1] fires,
    everything at or below the output directory of any other job [k2],
    and everything at or below the prompts folder, is left on the disk
    as it was, whether [fs.remove] resolves or rejects (job identifiers
    being plain names, as UUIDs are). *)
Theorem auto_clean_spares_other_jobs
    (s s' : Server) (i : nat) (r : option Thrown) (t : Timer) (k1 k2 : string)
    (rest : Path) :
  timers s !! i = Some t →
  dir t = jobOutputDir s k1 →
  path.plain_name k1 → path.plain_name k2 → k1 ≠ k2 →
  step (TimerFired i r) s = Some s' →
  disk s' !! (jobOutputDir s k2 ++ rest) = disk s !! (jobOutputDir s k2 ++ rest) ∧
  disk s' !! (promptsDir s ++ rest) = disk s !! (promptsDir s ++ rest).
Proof.
  intros Ht Hdir Hk1 Hk2 Hne Hstep. simpl in Hstep. rewrite Ht in Hstep.
  destruct (decide _); [|done]. injection Hstep as <-.
  destruct r as [e|]; [done|]. simpl. rewrite Hdir.
  rewrite !jobOutputDir_plain by done.
  change (promptsDir s) with (removelast (cwd s) ++ ["prompts"]).
  split; apply remove_lookup_other; rewrite <- !app_assoc; intros Hpre;
    apply prefix_app_inv in Hpre; simpl in Hpre.
  - apply prefix_cons_inv_2, prefix_cons_inv_1 in Hpre. done.
  - apply prefix_cons_inv_1 in Hpre. done.
Qed.

Lemma auto_clean_spares_other_jobs_witness :
  disk (after (two_jobs_trace ++ [RunJobSettled "j1" (inr [sample_result]);
                                  Tick 3600000; TimerFired 0 None]) fresh_server)
    !! (["app"; "outputs"; "j2"] ++ []) = Some Dir.
Proof.
  destruct (auto_clean_spares_other_jobs
    (after (two_jobs_trace ++ [RunJobSettled "j1" (inr [sample_result]); Tick 3600000])
           fresh_server)
    (after (two_jobs_trace ++ [RunJobSettled "j1" (inr [sample_result]); Tick 3600000;
                               TimerFired 0 None]) fresh_server)
    0 None {| due := 3601000%N; dir := ["app"; "outputs"; "j1"] |} "j1" "j2" []) as [H _].
  - by vm_compute.
  - by vm_compute.
  - by_compute.
  - by_compute.
  - done.
  - by vm_compute.
  - etrans; [exact H|]. by vm_compute.
Defined.

(** *** How a run fails *)

Lemma runJob_catch_result (s : Server) (k : string) (e : Thrown) (job : Job) :
  jobs s !! k = Some job →
  runners (runJob_catch k e s) !! k = Some Returned ∧
  jobs (runJob_catch k e s) !! k =
    Some {| id := id job; status := failed; progress := progress job;
            total := total job; currentTask := "Failed"; results := results job;
            createdAt := createdAt job; completedAt := Some (clock s);
            error := Some (message_of e) |} ∧
  disk (runJob_catch k e s) = disk s ∧
  timers (runJob_catch k e s) = timers s.
Proof.
  intros Hjob. unfold runJob_catch. shape.
  rewrite lookup_insert_eq, lookup_alter_eq, Hjob. by destruct job.
Qed.

(** X10. When [worker.init()] rejects, the job fails with the message of
    the rejection (or Unknown error if it is not an Error), keeps its
    [total] and has no results; no output directory is created, no timer
    is armed, and [worker.cleanup()] is not called: [runJob] is over. *)
Theorem init_rejection_fails_without_cleanup
    (s : Server) (k : string) (prompts : list string) (e : Thrown) :
  reachable s →
  runners s !! k = Some (AtInit prompts) →
  ∃ s' job,
    step (InitSettled k (Some e)) s = Some s' ∧
    get_status k s' = json 200 (status_body job) ∧
    status job = failed ∧ error job = Some (message_of e) ∧
    completedAt job = Some (clock s) ∧
    total job = Z.of_nat (length prompts) ∧ progress job = 0 ∧ results job = [] ∧
    disk s' = disk s ∧ timers s' = timers s ∧
    runners s' !! k = Some Returned ∧
    ∀ r, step (CleanupSettled k r) s' = None.
Proof.
  intros Hreach Hpc. apply reachable_consistent in Hreach.
  destruct (consistent_lookup s k _ Hreach Hpc) as (job & Hjob & _ & Hp & Ht & Hres).
  destruct (runJob_catch_result s k e job Hjob) as (Hr' & Hj' & Hd' & Ht').
  exists (runJob_catch k e s). eexists. split_and!.
  - simpl. by rewrite Hpc.
  - unfold get_status, getJob. by rewrite Hj'.
  - done.
  - done.
  - done.
  - done.
  - done.
  - done.
  - done.
  - done.
  - done.
  - intros r. unfold step. by rewrite Hr'.
Qed.

Lemma init_rejection_fails_without_cleanup_witness :
  ∃ s' job,
    step (InitSettled "j1" (Some NonError)) (after [PostRun "j1" (Some ["A"; "B"])] fresh_server)
      = Some s' ∧
    get_status "j1" s' = json 200 (status_body job) ∧
    status job = failed ∧ error job = Some "Unknown error" ∧
    completedAt job = Some 1000%N ∧
    total job = 2 ∧ progress job = 0 ∧ results job = [] ∧
    disk s' = ∅ ∧ timers s' = [] ∧
    runners s' !! "j1" = Some Returned ∧
    ∀ r, step (CleanupSettled "j1" r) s' = None.
Proof.
  apply (init_rejection_fails_without_cleanup
           (after [PostRun "j1" (Some ["A"; "B"])] fresh_server) "j1" ["A"; "B"] NonError).
  - apply reachable_after. by_compute.
  - by vm_compute.
Defined.

(** X11. When [worker.runJob] rejects, nothing is written or sent until
    [worker.cleanup()] has settled; then the job fails, with the message
    of the cleanup's own rejection if it rejects too, and with that of
    the worker's otherwise. [progress] stays where the worker left it and
    [results] stays empty. *)
Theorem worker_rejection_fails_after_cleanup
    (s : Server) (k : string) (prompts : list string) (n : nat) (e : Thrown)
    (r : option Thrown) :
  reachable s →
  runners s !! k = Some (AtRunJob prompts n) →
  ∃ s1 s2 job,
    step (RunJobSettled k (inl e)) s = Some s1 ∧
    jobs s1 = jobs s ∧ clients s1 = clients s ∧ timers s1 = timers s ∧
    step (CleanupSettled k r) s1 = Some s2 ∧
    get_status k s2 = json 200 (status_body job) ∧
    status job = failed ∧
    error job = Some (message_of (default e r)) ∧
    progress job = Z.of_nat n ∧ results job = [] ∧
    timers s2 = timers s.
Proof.
  intros Hreach Hpc. apply reachable_consistent in Hreach.
  destruct (consistent_lookup s k _ Hreach Hpc) as (job & Hjob & _ & Hp & Ht & _ & Hres).
  set (s1 := suspend k (AtCleanup (Some e)) s).
  destruct (runJob_catch_result s1 k (default e r) job Hjob) as (Hr' & Hj' & Hd' & Ht').
  exists s1, (runJob_catch k (default e r) s1). eexists. split_and!.
  - simpl. by rewrite Hpc.
  - done.
  - done.
  - done.
  - simpl. rewrite lookup_insert_eq. by destruct r.
  - unfold get_status, getJob. by rewrite Hj'.
  - done.
  - done.
  - done.
  - done.
  - done.
Qed.

Lemma worker_rejection_fails_after_cleanup_witness :
  ∃ s1 s2 job,
    step (RunJobSettled "j1" (inl (ErrorObj "Page crashed")))
         (after progress_trace fresh_server) = Some s1 ∧
    jobs s1 = jobs (after progress_trace fresh_server) ∧
    clients s1 = clients (after progress_trace fresh_server) ∧
    timers s1 = timers (after progress_trace fresh_server) ∧
    step (CleanupSettled "j1" (Some (ErrorObj "Target closed"))) s1 = Some s2 ∧
    get_status "j1" s2 = json 200 (status_body job) ∧
    status job = failed ∧
    error job = Some "Target closed" ∧
    progress job = 1 ∧ results job = [] ∧
    timers s2 = timers (after progress_trace fresh_server).
Proof.
  apply (worker_rejection_fails_after_cleanup (after progress_trace fresh_server)
           "j1" ["A"] 1 (ErrorObj "Page crashed") (Some (ErrorObj "Target closed"))).
  - apply reachable_after. by_compute.
  - by vm_compute.
Defined.

(** X12. Any error of the file system while the default prompts are
    loaded ([readdir] of the prompts folder, or [readFile] of one of its
    .txt files) fails the job with the message of that error; [total] is
    still 0, nothing of what was read so far is used, and the worker is
    never created. *)
Theorem default_source_error_fails
    (s : Server) (k : string) (pc : Pc) (e : Thrown) :
  reachable s →
  runners s !! k = Some pc →
  (pc = AtReaddir ∧ fs.readdir (disk s) (promptsDir s) = inl e) ∨
  (∃ file rest acc, pc = AtReadFile file rest acc ∧ fs.readFile (disk s) file = inl e) →
  ∃ s' job,
    step (FsSettled k) s = Some s' ∧
    get_status k s' = json 200 (status_body job) ∧
    status job = failed ∧ error job = Some (message_of e) ∧
    total job = 0 ∧ progress job = 0 ∧ results job = [] ∧
    runners s' !! k = Some Returned.
Proof.
  intros Hreach Hpc Hfail. apply reachable_consistent in Hreach.
  destruct (consistent_lookup s k _ Hreach Hpc) as (job & Hjob & Hat).
  destruct (runJob_catch_result s k e job Hjob) as (Hr' & Hj' & _).
  exists (runJob_catch k e s). eexists.
  assert (progress job = 0 ∧ total job = 0 ∧ results job = []) as (Hp & Ht & Hres).
  { destruct Hfail as [[-> _]|(file & rest & acc & -> & _)];
      by destruct Hat as (_ & ? & ? & ?). }
  split_and!.
  - simpl. rewrite Hpc.
    destruct Hfail as [[-> Hrd]|(file & rest & acc & -> & Hrd)]; by rewrite Hrd.
  - unfold get_status, getJob. by rewrite Hj'.
  - done.
  - done.
  - done.
  - done.
  - done.
  - done.
Qed.

Lemma default_source_error_fails_witness :
  ∃ s' job,
    step (FsSettled "j1") (after [PostRun "j1" None] fresh_server) = Some s' ∧
    get_status "j1" s' = json 200 (status_body job) ∧
    status job = failed ∧
    error job = Some (message_of (enoent "scandir" ["app"; "prompts"])) ∧
    total job = 0 ∧ progress job = 0 ∧ results job = [] ∧
    runners s' !! "j1" = Some Returned.
Proof.
  apply (default_source_error_fails (after [PostRun "j1" None] fresh_server) "j1" AtReaddir).
  - apply reachable_after. by_compute.
  - by vm_compute.
  - left. split; [done|]. by vm_compute.
Defined.


(** *** How a run succeeds *)

Lemma step_runner_frame (e : Event) (s s' : Server) (k : string) :
  step e s = Some s' → subject e ≠ Some k → runners s' !! k = runners s !! k.
Proof.
  intros Hstep Hk.
  destruct e as [j body|j|j r|j cur tot st|j r|j r|i fr|ms|d| |i rs]; simpl in Hstep, Hk.
  - destruct (decide _); [|done]. injection Hstep as <-.
    unfold post_run, runJob_start, createJob. simpl. rewrite lookup_insert_eq.
    destruct body as [[|p ps]|]; unfold runJob_resolved; shape;
      rewrite lookup_insert_ne by congruence; done.
  - destruct (runners s !! j) as [[|file rest prompts| |prompts| | |]|]; try done;
      injection Hstep as <-.
    + unfold runJob_readdir, runJob_catch.
      destruct (fs.readdir _ _); [|destruct (map _ _)]; shape;
        rewrite lookup_insert_ne by congruence; done.
    + unfold runJob_readFile, runJob_catch, runJob_resolved.
      destruct (fs.readFile _ _); [|destruct rest]; shape;
        rewrite lookup_insert_ne by congruence; done.
    + unfold runJob_ensureDir.
      destruct (fs.ensureDir _ _); shape; rewrite lookup_insert_ne by congruence; done.
  - destruct (runners s !! j) as [[| | prompts| | | |]|]; try done.
    injection Hstep as <-. unfold runJob_init, runJob_catch.
    destruct r; shape; rewrite lookup_insert_ne by congruence; done.
  - destruct (runners s !! j) as [[| | | |prompts n| |]|]; try done.
    destruct (decide _); [|done]. injection Hstep as <-. unfold onProgress. shape.
    by rewrite lookup_insert_ne by congruence.
  - destruct (runners s !! j) as [[| | | |prompts n| |]|]; try done.
    destruct r as [err|rs]; [|destruct (decide _); [|done]]; injection Hstep as <-;
      unfold runJob_worker; shape; rewrite lookup_insert_ne by congruence; done.
  - destruct (runners s !! j) as [[| | | | |rethrow|]|]; try done.
    injection Hstep as <-. unfold runJob_cleanup, runJob_catch.
    destruct r, rethrow; shape; rewrite lookup_insert_ne by congruence; done.
  - destruct (timers s !! i); [|done]. destruct (decide _); [|done].
    injection Hstep as <-. by destruct fr.
  - by injection Hstep as <-.
  - by injection Hstep as <-.
  - by injection Hstep as <-.
  - by injection Hstep as <-.
Qed.

(** Events of other jobs, of clients, timers and the clock leave the
    record of job [k] and the place of its runner. *)
Lemma run_frame (es : list Event) (k : string) :
  ∀ s s', run es s = Some s' → Forall (fun e => subject e ≠ Some k) es →
          jobs s' !! k = jobs s !! k ∧ runners s' !! k = runners s !! k.
Proof.
  induction es as [|e es IH]; intros s s' Hrun Hes; simpl in Hrun.
  - by injection Hrun as <-.
  - destruct (step e s) as [s1|] eqn:Hstep; [|done].
    apply Forall_cons in Hes as [He Hes].
    destruct (IH s1 s' Hrun Hes) as [-> ->].
    split; [by eapply step_frame|by eapply step_runner_frame].
Qed.

(** X13. A worker that resolves completes the job. While
    [worker.runJob] of job [k] is awaited, however many units were
    reported through [onProgress] (none included) and whatever else
    happened on the server before, when it resolves with one result per
    prompt the job becomes [completed] in that same turn: it has the
    worker's results, [progress] and [total] are the number of prompts,
    [completedAt] is the time of that moment and there is no [error]; one
    cleanup timer is added, due 3600000 ms later, for the job's output
    directory; every client that is OPEN receives the [job_update] of the
    completion and then the [job_completed] summary, and the others
    nothing. Whatever other jobs, clients, timers and the clock do next,
    when [worker.cleanup()] resolves the runner returns and the record is
    still the same. *)
Theorem run_without_rejection_completes
    (s : Server) (k : string) (prompts : list string) (reported : nat)
    (rs : list UnitResult) :
  reachable s →
  runners s !! k = Some (AtRunJob prompts reported) →
  length rs = length prompts →
  ∃ s1 job,
    step (RunJobSettled k (inr rs)) s = Some s1 ∧
    get_status k s1 = json 200 (status_body job) ∧
    status job = completed ∧
    progress job = Z.of_nat (length prompts) ∧ total job = Z.of_nat (length prompts) ∧
    results job = rs ∧ completedAt job = Some (clock s) ∧ error job = None ∧
    disk s1 = disk s ∧
    timers s1 = timers s ++ [{| due := (clock s + 3600000)%N; dir := jobOutputDir s k |}] ∧
    Forall2 (fun c c' =>
               readyState c' = readyState c ∧
               inbox c' = inbox c ++
                 if decide (readyState c = OPEN)
                 then [job_update (job_update_of job);
                       job_completed
                         ("✨ Job completed: " +:+ pretty (successful rs) +:+ "/" +:+
                          pretty (length rs) +:+ " prompts processed successfully") rs]
                 else [])
            (clients s) (clients s1) ∧
    ∀ es s2,
      run es s1 = Some s2 →
      Forall (fun e => subject e ≠ Some k) es →
      ∃ s', step (CleanupSettled k None) s2 = Some s' ∧
            get_status k s' = json 200 (status_body job) ∧
            runners s' !! k = Some Returned ∧
            timers s' = timers s2 ∧ disk s' = disk s2 ∧ clients s' = clients s2.
Proof.
  intros Hreach Hpc Hlen.
  pose proof (reachable_all_kept s Hreach) as Hkept.
  apply reachable_consistent in Hreach.
  destruct (consistent_lookup s k _ Hreach Hpc) as (job & Hjob & Hrun & Hp & Ht & Hn & Hres).
  destruct (Hkept k job Hjob) as (_ & _ & Hst). rewrite Hrun in Hst.
  destruct Hst as [Hco Her].
  set (s1 := runJob_worker k prompts (inr rs) s).
  set (job1 := assign job [status_ completed; progress_ (Z.of_nat (length prompts));
                           currentTask_ "Completed successfully"; results_ rs;
                           completedAt_ (clock s)]).
  assert (step (RunJobSettled k (inr rs)) s = Some s1) as H1.
  { unfold step. rewrite Hpc. by rewrite decide_True. }
  assert (jobs s1 !! k = Some job1) as Hj1.
  { unfold s1, runJob_worker. shape. by rewrite lookup_alter_eq, Hjob. }
  assert (runners s1 !! k = Some (AtCleanup None)) as Hr1.
  { unfold s1, runJob_worker. shape. apply lookup_insert_eq. }
  exists s1, job1. split_and!.
  - exact H1.
  - unfold get_status, getJob. by rewrite Hj1.
  - by destruct job.
  - by destruct job.
  - destruct job; simpl in *. done.
  - by destruct job.
  - by destruct job.
  - destruct job; simpl in *. done.
  - unfold s1, runJob_worker. by shape.
  - unfold s1, runJob_worker, jobOutputDir. by shape.
  - unfold s1, runJob_worker. cbn [clients suspend set_runners set_timers].
    unfold broadcast at 1. cbn [clients set_clients].
    unfold updateJob. rewrite Hjob.
    unfold broadcast. cbn [clients set_clients set_jobs]. fold job1.
    generalize (job_update (job_update_of job1)).
    generalize (job_completed
                  ("✨ Job completed: " +:+ pretty (successful rs) +:+ "/" +:+
                   pretty (length rs) +:+ " prompts processed successfully") rs).
    intros jc ju. induction (clients s) as [|c cs IH]; simpl; constructor; [|done].
    destruct (decide (readyState c = OPEN)) as [Ho|Hno]; simpl.
    + rewrite decide_True by done. simpl. by rewrite <- app_assoc.
    + rewrite decide_False by done. by rewrite app_nil_r.
  - intros es s2 Hes Hothers.
    destruct (run_frame es k s1 s2 Hes Hothers) as [Hj2 Hr2].
    exists (suspend k Returned s2). split_and!; try done.
    + unfold step. by rewrite Hr2, Hr1.
    + unfold get_status, getJob. simpl. by rewrite Hj2, Hj1.
    + simpl. apply lookup_insert_eq.
Qed.

Lemma run_without_rejection_completes_witness :
  let s := after [WsConnect; PostRun "j1" (Some ["A"; "B"]); InitSettled "j1" None;
                  FsSettled "j1"; Progress "j1" 1 2 "Prompt 1/2 done"; Tick 5]
                 fresh_server in
  ∃ s1 job,
    step (RunJobSettled "j1" (inr [sample_result; failed_result])) s = Some s1 ∧
    get_status "j1" s1 = json 200 (status_body job) ∧
    status job = completed ∧ progress job = 2 ∧ total job = 2 ∧
    results job = [sample_result; failed_result] ∧ completedAt job = Some 1005%N ∧
    ∃ s', step (CleanupSettled "j1" None) (after [Tick 7; WsConnect] s1) = Some s' ∧
          get_status "j1" s' = json 200 (status_body job) ∧
          runners s' !! "j1" = Some Returned.
Proof.
  intros s.
  destruct (run_without_rejection_completes s "j1" ["A"; "B"] 1
              [sample_result; failed_result])
    as (s1 & job & Hstep & Hget & Hst & Hp & Ht & Hres & Hco & _ & _ & _ & _ & Hlater).
  - apply reachable_after. by_compute.
  - vm_compute. reflexivity.
  - reflexivity.
  - exists s1, job. split_and!; try done.
    destruct (Hlater [Tick 7; WsConnect] (after [Tick 7; WsConnect] s1))
      as (s' & Hclean & Hget' & Hret & _).
    + reflexivity.
    + repeat constructor; done.
    + by exists s'.
Defined.

Lemma run_cwd (es : list Event) :
  ∀ s s', run es s = Some s' → cwd s' = cwd s.
Proof.
  induction es as [|e es IH]; intros s s' Hrun; simpl in Hrun.
  - by injection Hrun as <-.
  - destruct (step e s) as [s1|] eqn:Hstep; [|done].
    rewrite (IH s1 s' Hrun). by eapply step_cwd.
Qed.

(** X21. Between the unit list and the worker. When [worker.init()] of
    job [k] resolves, nothing is written or sent: the runner goes on to
    [fs.ensureDir] of the job's output directory. Whatever other jobs,
    clients, timers and the clock do meanwhile, when that settles nothing
    is written to a job or sent either: if the directory could be made
    on the disk of that moment, the disk is what [fs.ensureDir] leaves and
    [worker.runJob] is called with no unit reported yet; if not, the
    runner is on its way out through [worker.cleanup()] with the error of
    [fs.ensureDir], and the disk is as it was. *)
Theorem directory_made_before_worker_runs (s : Server) (k : string) (prompts : list string) :
  runners s !! k = Some (AtInit prompts) →
  ∃ s1, step (InitSettled k None) s = Some s1 ∧
        runners s1 !! k = Some (AtEnsureDir prompts) ∧
        jobs s1 = jobs s ∧ clients s1 = clients s ∧ disk s1 = disk s ∧
        timers s1 = timers s ∧
        ∀ es s2,
          run es s1 = Some s2 →
          Forall (fun e => subject e ≠ Some k) es →
          ∃ s3, step (FsSettled k) s2 = Some s3 ∧
                jobs s3 = jobs s2 ∧ clients s3 = clients s2 ∧ timers s3 = timers s2 ∧
                match fs.ensureDir (disk s2) (jobOutputDir s k) with
                | inr d => runners s3 !! k = Some (AtRunJob prompts 0) ∧ disk s3 = d
                | inl e => runners s3 !! k = Some (AtCleanup (Some e)) ∧ disk s3 = disk s2
                end.
Proof.
  intros Hpc. exists (suspend k (AtEnsureDir prompts) s).
  split_and!; try done.
  - simpl. by rewrite Hpc.
  - simpl. apply lookup_insert_eq.
  - intros es s2 Hes Hothers.
    destruct (run_frame es k _ s2 Hes Hothers) as [_ Hr2].
    simpl in Hr2. rewrite lookup_insert_eq in Hr2.
    pose proof (run_cwd es _ s2 Hes) as Hcwd. simpl in Hcwd.
    exists (runJob_ensureDir k prompts s2). split.
    { unfold step. by rewrite Hr2. }
    unfold runJob_ensureDir, jobOutputDir. rewrite Hcwd.
    destruct (fs.ensureDir _ _) as [e|d]; simpl; split_and!; try done;
      apply lookup_insert_eq.
Qed.

Lemma directory_made_before_worker_runs_witness :
  ∃ s1, step (InitSettled "j1" None) (after [PostRun "j1" (Some ["A"])] fresh_server)
          = Some s1 ∧
        runners s1 !! "j1" = Some (AtEnsureDir ["A"]) ∧
        ∃ s3, step (FsSettled "j1") (after [Tick 3; WsConnect] s1) = Some s3 ∧
              clients s3 = clients (after [Tick 3; WsConnect] s1).
Proof.
  destruct (directory_made_before_worker_runs
              (after [PostRun "j1" (Some ["A"])] fresh_server) "j1" ["A"])
    as (s1 & Hstep & Hpc & _ & _ & _ & _ & Hlater).
  - vm_compute. reflexivity.
  - exists s1. split; [exact Hstep|]. split; [exact Hpc|].
    destruct (Hlater [Tick 3; WsConnect] (after [Tick 3; WsConnect] s1))
      as (s3 & Hfs & _ & Hclients & _).
    + reflexivity.
    + repeat constructor; done.
    + by exists s3.
Defined.

(** *** The file route and the listing *)

Lemma bytes_app (a b : string) : bytes (a +:+ b) = bytes a ++ bytes b.
Proof. induction a as [|c a IH]; simpl; [done|]. unfold bytes in *. simpl. by rewrite IH. Qed.

Lemma split_slash_sep (acc l r : list ascii) :
  "/"%char ∉ l →
  split_slash acc (l ++ "/"%char :: r) = of_bytes (rev acc ++ l) :: split_slash [] r.
Proof.
  revert acc. induction l as [|c l IH]; intros acc Hno; simpl.
  - by rewrite app_nil_r.
  - apply not_elem_of_cons in Hno as [Hc Hl].
    rewrite decide_False by done. rewrite IH by done. simpl. by rewrite <- app_assoc.
Qed.

(** The segments of /a/b/c are the empty string, a, b and c. *)
Lemma split_slash_joined (p : Path) :
  Forall path.plain_name p →
  split_slash [] (bytes (foldr (fun seg acc => "/" +:+ seg +:+ acc) "" p)) = "" :: p.
Proof.
  induction 1 as [|seg p' Hseg Hp' IH]; [done|].
  simpl foldr. rewrite bytes_app. change (bytes "/") with ["/"%char]. simpl.
  f_equal. rewrite bytes_app. destruct Hseg as (_ & _ & _ & Hno).
  destruct p' as [|seg' p''].
  - simpl. rewrite app_nil_r, split_slash_plain by done. simpl. by rewrite of_bytes_bytes.
  - simpl foldr in *. rewrite bytes_app in *. change (bytes "/") with ["/"%char] in *.
    simpl in IH. injection IH as IH.
    simpl. rewrite split_slash_sep by done. simpl. by rewrite of_bytes_bytes, IH.
Qed.

Lemma push_segments_plain (p : Path) :
  Forall path.plain_name p → ∀ acc, foldl path.push_segment acc p = acc ++ p.
Proof.
  induction 1 as [|seg p' Hseg _ IH]; intros acc; simpl; [by rewrite app_nil_r|].
  rewrite push_segment_plain by done. rewrite IH. by rewrite <- app_assoc.
Qed.

(** Resolving an absolute path forgets everything before it. *)
Lemma resolve_absolute (wd : Path) (args : list string) (p : Path) :
  p ≠ [] → Forall path.plain_name p →
  path.resolve wd (args ++ [path.to_string p]) = p.
Proof.
  intros Hne Hp. unfold path.resolve. rewrite foldl_app. simpl.
  unfold path.resolve_arg, segments, path.to_string.
  destruct p as [|seg p']; [done|].
  assert (bytes (foldr (fun seg acc => "/" +:+ seg +:+ acc) "" (seg :: p'))
          = "/"%char :: bytes (seg +:+ foldr (fun seg acc => "/" +:+ seg +:+ acc) "" p'))
    as Hb by (simpl foldr; by rewrite bytes_app).
  rewrite decide_False.
  2: { intros Heq. apply (f_equal bytes) in Heq. rewrite Hb in Heq. done. }
  assert (startsWith (foldr (fun seg acc => "/" +:+ seg +:+ acc) "" (seg :: p')) "/" = true)
    as ->.
  { unfold startsWith. apply bool_decide_eq_true. rewrite Hb.
    change (bytes "/") with ["/"%char]. by apply prefix_cons, prefix_nil. }
  rewrite split_slash_joined by done.
  change (foldl path.push_segment [] ("" :: seg :: p'))
    with (foldl path.push_segment [] (seg :: p')).
  by rewrite (push_segments_plain (seg :: p') Hp []).
Qed.

(** X14. The file route confines plain file names only. For a known
    job and a [filename] that is a plain name, the route answers 404
    (File not found) or 500 (the name does not fit in the
    Content-Disposition header), or Express answers with its 403 or 404
    page, or the file that is sent is the entry of that name right inside
    the job's output directory. A [filename] that is an absolute path (as
    a percent-encoded slash in the URL yields after decoding) is resolved
    to that path, wherever it is: when a regular file is there, the path
    fits in the header and send accepts it, that file is sent. *)
Theorem get_file_confines_plain_names_only
    (v : express.Send) (s : Server) (k : string) (job : Job) (f : string)
    (p : Path) (c : string) (d1 d2 : Disk) :
  getJob k s = Some job →
  path.plain_name f →
  (get_file v k f s d1 d2 = json 404 (error_body "File not found") ∨
   get_file v k f s d1 d2 = json 500 (error_body "Internal server error") ∨
   get_file v k f s d1 d2 = page 403 ∨
   get_file v k f s d1 d2 = page 404 ∨
   ∃ headers, get_file v k f s d1 d2 = sendFile headers (jobOutputDir s k ++ [f])) ∧
  (p ≠ [] → Forall path.plain_name p →
   fs.pathExists d1 p = true →
   d2 !! p = Some (File c) →
   valid_header_value
     ("attachment; filename=" +:+ dquote +:+ path.to_string p +:+ dquote) = true →
   express.up_path p = false →
   express.dotfile v p = false →
   get_file v k (path.to_string p) s d1 d2 =
     sendFile [("Content-Type", "text/markdown");
               ("Content-Disposition",
                "attachment; filename=" +:+ dquote +:+ path.to_string p +:+ dquote)] p).
Proof.
  intros Hjob Hf. unfold get_file. rewrite Hjob. split.
  - rewrite resolve_in_output_dir by done.
    destruct (fs.pathExists d1 (jobOutputDir s k ++ [f])); cbn [negb]; [|by left].
    destruct (valid_header_value _); cbn [negb]; [|right; by left].
    unfold express.res_sendFile.
    destruct (express.up_path _); [right; right; by left|].
    destruct (express.dotfile _ _); [right; right; right; by left|].
    right; right; right.
    assert (match jobOutputDir s k ++ [f] with
            | [] => ["index.html"]
            | _ :: _ => jobOutputDir s k ++ [f]
            end = jobOutputDir s k ++ [f]) as -> by by destruct (jobOutputDir s k).
    destruct (fs.kind d2 _) as [[|c']|]; [by left|right; by eexists|by left].
  - intros Hne Hp Hex Hfile Hheader Hup Hdot.
    change ["../outputs"; k; path.to_string p] with (["../outputs"; k] ++ [path.to_string p]).
    rewrite resolve_absolute by done. rewrite Hex, Hheader. cbn [negb].
    by rewrite res_sendFile_accepted, Hfile.
Qed.

Lemma get_file_confines_plain_names_only_witness :
  let s := prompts_job_server in
  (get_file express.send1 "j1" "001.md" s (disk s) (disk s)
     = json 404 (error_body "File not found") ∨
   get_file express.send1 "j1" "001.md" s (disk s) (disk s)
     = json 500 (error_body "Internal server error") ∨
   get_file express.send1 "j1" "001.md" s (disk s) (disk s) = page 403 ∨
   get_file express.send1 "j1" "001.md" s (disk s) (disk s) = page 404 ∨
   ∃ headers, get_file express.send1 "j1" "001.md" s (disk s) (disk s)
                = sendFile headers (jobOutputDir s "j1" ++ ["001.md"])) ∧
  get_file express.send1 "j1" "/app/prompts/a.txt" s (disk s) (disk s) =
    sendFile [("Content-Type", "text/markdown");
              ("Content-Disposition",
               "attachment; filename=" +:+ dquote +:+ "/app/prompts/a.txt" +:+ dquote)]
             ["app"; "prompts"; "a.txt"].
Proof.
  intros s.
  destruct (get_file_confines_plain_names_only express.send1 s "j1"
              {| id := "j1"; status := running; progress := 0; total := 1;
                 currentTask := "Using custom prompts..."; results := [];
                 createdAt := 1000%N; completedAt := None; error := None |}
              "001.md" ["app"; "prompts"; "a.txt"] "  Document the API
" (disk s) (disk s)) as [Hplain Habs].
  - vm_compute. reflexivity.
  - by_compute.
  - split; [exact Hplain|]. apply Habs.
    + done.
    + by_compute.
    + vm_compute. reflexivity.
    + vm_compute. reflexivity.
    + vm_compute. reflexivity.
    + vm_compute. reflexivity.
    + vm_compute. reflexivity.
Defined.

(** X15. What the listing offers is looked for where it was listed.
    For every entry (with a plain file name, as [readdir] gives them) of
    a 200 answer of GET /api/outputs/:jobId, the [downloadUrl] is
    /outputs/<jobId>/<filename>, and GET /outputs/:jobId/:filename on the
    same disk never answers File not found: it answers 500 when the name
    does not fit in the Content-Disposition header; else Express answers
    with its 403 or 404 page when send refuses the path (a [..] segment,
    a dotfile) or the entry is a directory; else the entry is sent from
    the job's output directory. *)
Theorem listed_output_is_served
    (v : express.Send) (s : Server) (k : string) (outputs : list Output) (o : Output)
    (d : Disk) :
  get_outputs k s d d = json 200 (outputs_body outputs) →
  o ∈ outputs →
  path.plain_name (filename o) →
  downloadUrl o = "/outputs/" +:+ k +:+ "/" +:+ filename o ∧
  get_file v k (filename o) s d d =
    if negb (valid_header_value
               ("attachment; filename=" +:+ dquote +:+ filename o +:+ dquote))
    then json 500 (error_body "Internal server error")
    else if express.up_path (jobOutputDir s k ++ [filename o]) then page 403
    else if express.dotfile v (jobOutputDir s k ++ [filename o]) then page 404
    else match d !! (jobOutputDir s k ++ [filename o]) with
         | Some (File _) =>
             sendFile [("Content-Type", "text/markdown");
                       ("Content-Disposition",
                        "attachment; filename=" +:+ dquote +:+ filename o +:+ dquote)]
                      (jobOutputDir s k ++ [filename o])
         | _ => page 404
         end.
Proof.
  intros Hget Hin Hplain. unfold get_outputs, get_file in *.
  destruct (getJob k s) as [job|]; [|done].
  destruct (fs.pathExists d (jobOutputDir s k)) eqn:Hex; simpl in Hget.
  2: { injection Hget as <-. by apply elem_of_nil in Hin. }
  unfold fs.readdir in Hget.
  destruct (fs.kind d (jobOutputDir s k)) as [[|c]|] eqn:Hkind; try done.
  injection Hget as <-.
  apply elem_of_outputs in Hin as (Hfile & _ & Hurl). split; [done|].
  rewrite resolve_in_output_dir by done.
  apply elem_of_children in Hfile as [n Hn].
  unfold fs.pathExists. rewrite kind_below, Hn. cbn [negb].
  destruct (valid_header_value _); cbn [negb]; [|done].
  unfold express.res_sendFile.
  destruct (express.up_path _); [done|].
  destruct (express.dotfile _ _); [done|].
  assert (match jobOutputDir s k ++ [filename o] with
          | [] => ["index.html"]
          | _ :: _ => jobOutputDir s k ++ [filename o]
          end = jobOutputDir s k ++ [filename o]) as -> by by destruct (jobOutputDir s k).
  by rewrite kind_below, Hn.
Qed.

Lemma listed_output_is_served_witness :
  downloadUrl {| filename := "001.md"; downloadUrl := "/outputs/j1/001.md" |}
    = "/outputs/" +:+ "j1" +:+ "/" +:+ "001.md" ∧
  get_file express.send0 "j1" "001.md" sample_server (disk sample_server) (disk sample_server) =
    sendFile [("Content-Type", "text/markdown");
              ("Content-Disposition",
               "attachment; filename=" +:+ dquote +:+ "001.md" +:+ dquote)]
             (jobOutputDir sample_server "j1" ++ ["001.md"]).
Proof.
  destruct (listed_output_is_served express.send0 sample_server "j1"
              [{| filename := "001.md"; downloadUrl := "/outputs/j1/001.md" |}]
              {| filename := "001.md"; downloadUrl := "/outputs/j1/001.md" |}
              (disk sample_server)) as [Hurl Hfile].
  - vm_compute. reflexivity.
  - apply list_elem_of_here.
  - by_compute.
  - split; [exact Hurl|]. etrans; [exact Hfile|]. vm_compute. reflexivity.
Defined.

(** *** The order of a listing *)

Lemma code_units_le_total (a b : list N) :
  code_units_le a b = true ∨ code_units_le b a = true.
Proof.
  revert b. induction a as [|x a IH]; intros [|y b]; simpl; auto.
  destruct (N.ltb_spec x y), (N.ltb_spec y x); auto; lia.
Qed.

Lemma code_units_le_trans (a b c : list N) :
  code_units_le a b = true → code_units_le b c = true → code_units_le a c = true.
Proof.
  revert b c. induction a as [|x a IH]; intros [|y b] [|z c]; simpl; try done.
  destruct (N.ltb_spec x y), (N.ltb_spec y x), (N.ltb_spec y z), (N.ltb_spec z y),
    (N.ltb_spec x z), (N.ltb_spec z x); try done; try lia.
  apply IH.
Qed.

Global Instance sorts_before_total : Total sorts_before.
Proof. intros a b. apply code_units_le_total. Qed.

Global Instance sorts_before_trans : Transitive sorts_before.
Proof. intros a b c. apply code_units_le_trans. Qed.

Lemma StronglySorted_filter {A} (R : relation A) (P : A → Prop) `{∀ x, Decision (P x)}
    (l : list A) :
  StronglySorted R l → StronglySorted R (filter P l).
Proof.
  induction 1 as [|x l Hl IH Hx]; [constructor|].
  rewrite filter_cons. destruct (decide (P x)); [|done].
  constructor; [done|]. apply Forall_forall. intros y Hy.
  apply list_elem_of_filter in Hy as [_ Hy]. by eapply Forall_forall in Hx.
Qed.

Lemma NoDup_omap_inj {A B} (f : A → option B) (l : list A) :
  (∀ x x' y, f x = Some y → f x' = Some y → x = x') →
  NoDup l → NoDup (omap f l).
Proof.
  intros Hinj. induction 1 as [|x l Hx Hl IH]; simpl; [constructor|].
  destruct (f x) as [y|] eqn:Hy; [|done].
  constructor; [|done]. rewrite list_elem_of_omap. intros (x' & Hin & Hy').
  by rewrite (Hinj x x' y Hy Hy') in Hx.
Qed.

(** What [readdir] resolves with is in ascending order, each name once. *)
Lemma readdir_sorted (d : Disk) (p : Path) (files : list string) :
  fs.readdir d p = inr files → StronglySorted sorts_before files ∧ NoDup files.
Proof.
  unfold fs.readdir. destruct (fs.kind d p) as [[|c]|]; try done. intros [= <-].
  unfold fs.children. split; [apply StronglySorted_merge_sort; apply _|].
  rewrite merge_sort_Permutation.
  assert (omap (fun kv : Path * Node => fs.child_of p kv.1) (map_to_list d)
          = omap (fs.child_of p) (map_to_list d).*1) as ->.
  { induction (map_to_list d) as [|[k n] l IH]; simpl; [done|].
    destruct (fs.child_of p k); [f_equal|]; exact IH. }
  apply NoDup_omap_inj; [|apply NoDup_fst_map_to_list].
  intros k k' f Hk Hk'. apply child_of_Some in Hk, Hk'. congruence.
Qed.

(** X22. Listings come in the order of the names. The outputs of a 200
    answer of GET /api/outputs/:jobId are in ascending order of their
    file names, as JavaScript compares strings (by UTF-16 code units),
    each name once, whatever order the directory holds its entries in;
    and so are the .txt files from which a run without custom prompts
    builds its unit list. *)
Theorem listings_in_name_order
    (s : Server) (k : string) (d1 d2 : Disk) (outputs : list Output) :
  get_outputs k s d1 d2 = json 200 (outputs_body outputs) →
  (StronglySorted sorts_before (map filename outputs) ∧ NoDup (map filename outputs)) ∧
  ∀ files, fs.readdir (disk s) (promptsDir s) = inr files →
           StronglySorted sorts_before (filter (fun f => endsWith f ".txt") files) ∧
           NoDup (filter (fun f => endsWith f ".txt") files).
Proof.
  intros Hget. split.
  - unfold get_outputs in Hget. destruct (getJob k s); [|done].
    destruct (negb _); [injection Hget as <-; split; constructor|].
    destruct (fs.readdir d2 _) as [e|files] eqn:Hdir; [done|]. injection Hget as <-.
    apply readdir_sorted in Hdir as [Hsorted Hnodup].
    assert (∀ l : list string,
              map filename
                (map (fun f => {| filename := f;
                                  downloadUrl := "/outputs/" +:+ k +:+ "/" +:+ f |}) l) = l)
      as -> by (intros l; induction l as [|f l IH]; simpl; [done|by rewrite IH]).
    split; [by apply StronglySorted_filter|by apply NoDup_filter].
  - intros files Hdir. apply readdir_sorted in Hdir as [Hsorted Hnodup].
    split; [by apply StronglySorted_filter|by apply NoDup_filter].
Qed.

Lemma listings_in_name_order_witness :
  get_outputs "j1" awkward_names_server (disk awkward_names_server)
              (disk awkward_names_server)
    = json 200 (outputs_body [{| filename := "001.md";
                                 downloadUrl := "/outputs/j1/001.md" |}]) ∧
  StronglySorted sorts_before ["001.md"] ∧
  fs.readdir (disk prompts_job_server) (promptsDir prompts_job_server)
    = inr ["a.txt"; "b.txt"; "notes.md"] ∧
  StronglySorted sorts_before (filter (fun f => endsWith f ".txt") ["a.txt"; "b.txt"; "notes.md"]).
Proof.
  assert (get_outputs "j1" awkward_names_server (disk awkward_names_server)
            (disk awkward_names_server)
          = json 200 (outputs_body [{| filename := "001.md";
                                       downloadUrl := "/outputs/j1/001.md" |}])) as Hget
    by (vm_compute; reflexivity).
  assert (fs.readdir (disk prompts_job_server) (promptsDir prompts_job_server)
          = inr ["a.txt"; "b.txt"; "notes.md"]) as Hdir by (vm_compute; reflexivity).
  destruct (listings_in_name_order prompts_job_server "j1" (disk prompts_job_server)
              (disk prompts_job_server) []) as [_ Hprompts].
  { vm_compute. reflexivity. }
  destruct (listings_in_name_order awkward_names_server "j1" (disk awkward_names_server)
              (disk awkward_names_server) _ Hget) as [[Hsorted _] _].
  split; [exact Hget|]. split; [exact Hsorted|]. split; [exact Hdir|].
  by destruct (Hprompts _ Hdir).
Defined.

(** *** The page *)

Lemma use_keeps_a_prompt (c : page.Control) (p p' : page.State) :
  page.use c p = Some p' →
  (1 ≤ length (page.prompts p))%nat → (1 ≤ length (page.prompts p'))%nat.
Proof.
  destruct c as [|index value|index|custom]; simpl; intros Huse Hlen.
  - destruct (page.useCustomPrompts p); [|done]. injection Huse as <-. simpl.
    rewrite length_app. simpl. lia.
  - destruct (page.useCustomPrompts p && _); [|done]. injection Huse as <-. simpl.
    by rewrite length_insert.
  - destruct (page.useCustomPrompts p); [|done]. simpl in Huse.
    destruct (bool_decide (1 < length (page.prompts p))%nat) eqn:H1; [|done].
    destruct (bool_decide (index < length (page.prompts p))%nat) eqn:H2; [|done].
    simpl in Huse. injection Huse as <-.
    apply bool_decide_eq_true in H1, H2.
    unfold page.removePrompt. rewrite decide_True by done. simpl.
    rewrite length_delete by (by apply lookup_lt_is_Some). lia.
  - by injection Huse as <-.
Qed.

(** X16. The prompt editor never runs empty: starting from its one
    blank prompt, whatever is added, edited, removed or toggled, at least
    one prompt field remains; removing is refused (the list is left as it
    is) when only one prompt is left. *)
Theorem editor_keeps_a_prompt (cs : list page.Control) (p : page.State) (index : nat) :
  page.uses cs page.initial = Some p →
  page.prompts p ≠ [] ∧
  (length (page.prompts p) = 1%nat → page.removePrompt index p = p).
Proof.
  intros Huses.
  assert (1 ≤ length (page.prompts p))%nat as Hlen.
  { assert (1 ≤ length (page.prompts page.initial))%nat as H0 by (simpl; lia).
    revert H0 Huses. generalize page.initial.
    induction cs as [|c cs IH]; intros p0 H0 Huses; simpl in Huses.
    - by injection Huses as <-.
    - destruct (page.use c p0) as [p1|] eqn:Huse; [|done].
      apply (IH p1); [by eapply use_keeps_a_prompt|done]. }
  split.
  - intros Hnil. rewrite Hnil in Hlen. simpl in Hlen. lia.
  - intros H1. unfold page.removePrompt. rewrite decide_False; [done|lia].
Qed.

Lemma editor_keeps_a_prompt_witness :
  page.prompts {| page.prompts := ["Explain the API"];
                  page.useCustomPrompts := true |} ≠ [] ∧
  (length (page.prompts {| page.prompts := ["Explain the API"];
                           page.useCustomPrompts := true |}) = 1%nat →
   page.removePrompt 0 {| page.prompts := ["Explain the API"];
                          page.useCustomPrompts := true |}
   = {| page.prompts := ["Explain the API"]; page.useCustomPrompts := true |}).
Proof.
  apply (editor_keeps_a_prompt
           [page.Choose true; page.Add; page.Edit 1 "Explain the API"; page.Remove 0]).
  vm_compute. reflexivity.
Defined.

Lemma nonblank_all (ps : list string) : Forall (fun u => trim u ≠ "") (page.nonblank ps).
Proof.
  apply Forall_forall. intros u Hu. unfold page.nonblank in Hu.
  by apply list_elem_of_filter in Hu as [? _].
Qed.

(** X17. What the Run button posts and what the server makes of it.
    With custom prompts chosen and the button not blocked, the posted
    list is the prompts that are not blank, in order and untrimmed; the
    server takes exactly this list as the unit list, and the job's
    [total] is the number shown on the button. With demo prompts chosen
    the body has no [prompts] and the server turns to the prompts
    folder. And what the block prevents: custom prompts that are all
    blank would be posted as an empty list, for which the server would
    run the demo prompts instead. *)
Theorem run_button_posts_nonblank_prompts
    (p : page.State) (s : Server) (k : string) :
  jobs s !! k = None →
  runners s !! k = None →
  ∃ s1, step (PostRun k (page.requestBody p)) s = Some s1 ∧
    if page.useCustomPrompts p && negb (page.blocked p) then
      runners s1 !! k = Some (AtInit (page.nonblank (page.prompts p))) ∧
      total <$> jobs s1 !! k = Some (Z.of_nat (page.validPrompts p)) ∧
      Forall (fun u => trim u ≠ "") (page.nonblank (page.prompts p))
    else
      runners s1 !! k = Some AtReaddir.
Proof.
  intros Hj Hr. exists (post_run k (page.requestBody p) s).1. split.
  { simpl. by rewrite decide_True. }
  unfold page.blocked, page.requestBody, page.validPrompts.
  destruct (page.useCustomPrompts p); cbn [andb negb].
  - destruct (page.nonblank (page.prompts p)) as [|u us] eqn:Hnb.
    + rewrite bool_decide_eq_true_2 by done. cbn [negb].
      destruct (post_run_default s k (Some []) Hj) as (Hr1 & _); [by right|].
      rewrite Hr1. apply lookup_insert_eq.
    + rewrite bool_decide_eq_false_2 by done. cbn [negb].
      destruct (post_run_custom s k u us Hj) as (Hr1 & Hj1 & _).
      rewrite Hr1, Hj1, !lookup_insert_eq. split; [done|]. split; [done|].
      rewrite <- Hnb. apply nonblank_all.
  - destruct (post_run_default s k None Hj) as (Hr1 & _); [by left|].
    rewrite Hr1. apply lookup_insert_eq.
Qed.

Lemma run_button_posts_nonblank_prompts_witness :
  ∃ s1, step (PostRun "j1" (Some ["Explain the API"; " and the CLI "])) fresh_server
          = Some s1 ∧
    runners s1 !! "j1" = Some (AtInit ["Explain the API"; " and the CLI "]) ∧
    total <$> jobs s1 !! "j1" = Some 2 ∧
    Forall (fun u => trim u ≠ "") ["Explain the API"; " and the CLI "].
Proof.
  apply (run_button_posts_nonblank_prompts
           {| page.prompts := ["Explain the API"; "   "; " and the CLI "];
              page.useCustomPrompts := true |} fresh_server "j1").
  - vm_compute. reflexivity.
  - vm_compute. reflexivity.
Defined.

(** *** Jobs side by side *)

(** X18. Jobs do not write to each other: an event of job [j] (its
    POST /api/run, a progress report, a settled promise of its runner)
    leaves the record of every other job, and the place where every other
    runner is suspended, exactly as they were. *)
Theorem jobs_do_not_touch_each_other (e : Event) (s s' : Server) (j k : string) :
  step e s = Some s' →
  subject e = Some j → k ≠ j →
  get_status k s' = get_status k s ∧ runners s' !! k = runners s !! k.
Proof.
  intros Hstep Hj Hne.
  assert (subject e ≠ Some k) as Hk by congruence.
  split; [|by eapply step_runner_frame].
  unfold get_status, getJob. by rewrite (step_frame e s s' k).
Qed.

Lemma jobs_do_not_touch_each_other_witness :
  ∃ s', step (RunJobSettled "j1" (inl NonError)) (after two_jobs_trace fresh_server)
          = Some s' ∧
        get_status "j2" s' = get_status "j2" (after two_jobs_trace fresh_server) ∧
        runners s' !! "j2" = runners (after two_jobs_trace fresh_server) !! "j2".
Proof.
  destruct (step (RunJobSettled "j1" (inl NonError)) (after two_jobs_trace fresh_server))
    as [s'|] eqn:Hstep.
  - exists s'. split; [reflexivity|].
    by apply (jobs_do_not_touch_each_other (RunJobSettled "j1" (inl NonError))
                (after two_jobs_trace fresh_server) s' "j1" "j2").
  - exfalso. revert Hstep. apply (bool_decide_unpack _). vm_compute. exact I.
Defined.

(** *** The log panel *)






